(** * LinkUp: accounts, follow graph, posts and streams

    A shallow embedding of [models.py], of the views of [app.py] and of
    the forms of [postform.py], [loginform.py] and [registerform.py].
    The tables of the SQLite database are lists of rows in
    rowid order; the peewee calls of the source are functions over those
    lists; the Flask views are functions from the state of the world
    (database, session, flashed messages) to a response and a new state. *)

From Stdlib Require Import ZArith NArith List Bool Lia Permutation Sorted String.
From Stdlib Require Import Ascii.
Import ListNotations.

Open Scope Z_scope.

(** ** Python strings *)

(** A Python [str] is a sequence of Unicode code points. *)
Definition str := list N.

Definition str_of_string (s : string) : str :=
  map N_of_ascii (list_ascii_of_string s).

Fixpoint str_eqb (a b : str) : bool :=
  match a, b with
  | [], [] => true
  | x :: a', y :: b' => N.eqb x y && str_eqb a' b'
  | _, _ => false
  end.

(** [str.isspace] for one code point: the characters that [str.strip()]
    removes when called without an argument. *)
Definition isspace (c : N) : bool :=
  (((9 <=? c) && (c <=? 13)) || ((28 <=? c) && (c <=? 32))
   || (c =? 133) || (c =? 160) || (c =? 5760)
   || ((8192 <=? c) && (c <=? 8202))
   || (c =? 8232) || (c =? 8233) || (c =? 8239) || (c =? 8287)
   || (c =? 12288))%N.

Fixpoint lstrip (s : str) : str :=
  match s with
  | [] => []
  | c :: s' => if isspace c then lstrip s' else s
  end.

Definition rstrip (s : str) : str := rev (lstrip (rev s)).

(** [s.strip()] *)
Definition strip (s : str) : str := rstrip (lstrip s).

(** Truth value of a Python string: non-empty. *)
Definition truthy (s : str) : bool :=
  match s with [] => false | _ :: _ => true end.

(** ** SQLite's LIKE

    peewee's [**] operator is ILIKE, which the SQLite back end renders as
    [column LIKE ?].  LIKE folds the case of ASCII letters only, [%]
    matches any run of characters, [_] matches exactly one, and there is
    no escape character. *)

Definition ascii_lower (c : N) : N :=
  if ((65 <=? c) && (c <=? 90))%N then (c + 32)%N else c.

Definition lower (s : str) : str := map ascii_lower s.

Definition percent : N := 37.
Definition underscore : N := 95.

Fixpoint like (pattern : str) : str -> bool :=
  match pattern with
  | [] => fun s => match s with [] => true | _ :: _ => false end
  | c :: p' =>
      if N.eqb c percent then
        fix any (s : str) : bool :=
          like p' s || match s with [] => false | _ :: s' => any s' end
      else
        fun s =>
          match s with
          | [] => false
          | d :: s' =>
              (N.eqb c underscore || N.eqb (ascii_lower c) (ascii_lower d))
              && like p' s'
          end
  end.

(** ** The tables of models.py *)

Module User.
Record t := mk {
  id : Z;
  username : str;
  email : str;
  password : str;
  joined_at : Z;
  is_admin : bool
}.
End User.

Module Relationship.
Record t := mk {
  id : Z;
  from_user : Z;
  to_user : Z
}.
End Relationship.

Module Post.
Record t := mk {
  id : Z;
  timestamp : Z;
  user : Z;
  content : str
}.
End Post.

(** The database [public.db]: one list of rows per table, in rowid
    order (a new row is appended). *)
Record Database := mkDatabase {
  users : list User.t;
  relationships : list Relationship.t;
  posts : list Post.t
}.

Definition empty_db : Database := mkDatabase [] [] [].

(** The rowid SQLite gives a new row of an [INTEGER PRIMARY KEY] table:
    one more than the largest rowid in use. *)
Definition next_id (ids : list Z) : Z := 1 + fold_right Z.max 0 ids.

(** ** The order of a SELECT

    [User.Meta] declares [order_by = ('-joined_at',)] and [Post.Meta]
    declares [order_by = ('-timestamp',)], but the models are written
    for peewee 3 ([ForeignKeyField(..., backref=...)] is refused by
    earlier releases), and peewee 3 keeps no default ordering: the
    option is stored and never read.  No view calls [order_by], so
    every select of the program goes out without ORDER BY, and SQL
    leaves the order of its rows to the engine.

    A query engine says in which order the rows a select matches come
    back; the order may depend on the contents of the tables the query
    reads, which it is given.  All that is known of it is that it
    returns the matched rows, each once. *)
Definition QueryEngine := forall A : Type, Database -> list A -> list A.

Definition returns_selected_rows (E : QueryEngine) : Prop :=
  forall (A : Type) (tables : Database) (rows : list A),
    Permutation rows (E A tables rows).

(** The engine that scans a table in rowid order, as SQLite does for a
    select on one table without ORDER BY. *)
Definition rowid_order : QueryEngine := fun A _ rows => rows.

(** The tables a query reads. *)
Definition user_table (d : Database) : Database :=
  mkDatabase (users d) [] [].

Definition post_table (d : Database) : Database :=
  mkDatabase [] [] (posts d).

Definition user_and_relationship_tables (d : Database) : Database :=
  mkDatabase (users d) (relationships d) [].

(** Newest first: the keys of the rows never increase. *)
Definition descending {A : Type} (key : A -> Z) (rows : list A) : Prop :=
  StronglySorted (fun a b => key b <= key a) rows.

(** [query.limit(n)] *)
Definition limit {A : Type} (n : nat) (rows : list A) : list A := firstn n rows.

(** ** Exceptions, responses and the state of a request *)

Inductive Exception :=
| IntegrityError
| DoesNotExist
| ValueError (message : str)
| AttributeError.

Inductive result (A : Type) :=
| Ok (a : A)
| Raise (e : Exception).

Arguments Ok {A} a.
Arguments Raise {A} e.

(** Errors a form field collects during [validate]. *)
Inductive FieldError :=
| CsrfFailed
| Required (field : string)
| InvalidEmail (field : string).

(** What a view returns.  [abort(404)] is [Abort 404]; an exception no
    handler of the view catches leaves it as [Unhandled]. *)
Inductive Response :=
| Redirect (endpoint : string) (username : option str)
| RenderStream (template : string) (stream : list Post.t) (user : option User.t)
| RenderForm (template : string) (errors : list FieldError)
| Abort (code : Z)
| Unhandled (e : Exception).

Definition Flash := (str * string)%type.

(** The state a view reads and writes: the database, the account id the
    session holds (flask_login) and the flashed messages. *)
Record World := mkWorld {
  db : Database;
  session_user_id : option Z;
  flashes : list Flash
}.

Definition set_db (w : World) (d : Database) : World :=
  mkWorld d (session_user_id w) (flashes w).

(** [flash(message, category)] *)
Definition flash (w : World) (message : str) (category : string) : World :=
  mkWorld (db w) (session_user_id w) (flashes w ++ [(message, category)]).

(** [login_user(user)] *)
Definition login_user (w : World) (u : User.t) : World :=
  mkWorld (db w) (Some (User.id u)) (flashes w).

Section Application.

(** The SQL engine behind peewee. *)
Variable E : QueryEngine.

(** flask_bcrypt: the salted one-way hash and its check. *)
Variable generate_password_hash : str -> str.
Variable check_password_hash : str -> str -> bool.

(** wtforms' [Email()] validator. *)
Variable valid_email : str -> bool.

(** ** models.py *)

(** [User.select().where(cond)] *)
Definition User_select (cond : User.t -> bool) (d : Database) : list User.t :=
  E User.t (user_table d) (filter cond (users d)).

(** [Post.select().where(cond)] *)
Definition Post_select (cond : Post.t -> bool) (d : Database) : list Post.t :=
  E Post.t (post_table d) (filter cond (posts d)).

(** [Relationship.select().where(cond)] *)
Definition Relationship_select (cond : Relationship.t -> bool) (d : Database)
  : list Relationship.t :=
  filter cond (relationships d).

(** [query.get()]: the first row, or [DoesNotExist]. *)
Definition get {A : Type} (rows : list A) : result A :=
  match rows with
  | [] => Raise DoesNotExist
  | row :: _ => Ok row
  end.

(** [User.get_posts], also the back reference [user.posts]. *)
Definition get_posts (self : User.t) (d : Database) : list Post.t :=
  Post_select (fun p => Post.user p =? User.id self) d.

(** [User.following]: the accounts joined to a relationship row on
    [to_user] whose [from_user] is [self]. *)
Definition following (self : User.t) (d : Database) : list User.t :=
  E User.t (user_and_relationship_tables d)
    (map fst
       (filter (fun ur => Relationship.from_user (snd ur) =? User.id self)
          (flat_map
             (fun u =>
                map (pair u)
                  (filter (fun r => Relationship.to_user r =? User.id u)
                     (relationships d)))
             (users d)))).

(** [User.followers] *)
Definition followers (self : User.t) (d : Database) : list User.t :=
  E User.t (user_and_relationship_tables d)
    (map fst
       (filter (fun ur => Relationship.to_user (snd ur) =? User.id self)
          (flat_map
             (fun u =>
                map (pair u)
                  (filter (fun r => Relationship.from_user r =? User.id u)
                     (relationships d)))
             (users d)))).

(** [User.get_stream]: [Post.user << self.following] compares the owner
    with the primary keys of the sub-select; the query reads the three
    tables. *)
Definition get_stream (self : User.t) (d : Database) : list Post.t :=
  E Post.t d
    (filter
       (fun p =>
          existsb (fun u => Post.user p =? User.id u) (following self d)
          || (Post.user p =? User.id self))
       (posts d)).

(** [User.create]: both [username] and [email] carry a unique index. *)
Definition User_create (now : Z) (username email password : str)
    (is_admin : bool) (d : Database) : result Database :=
  if existsb
       (fun u => str_eqb (User.username u) username
                 || str_eqb (User.email u) email)
       (users d)
  then Raise IntegrityError
  else
    Ok (mkDatabase
          (users d ++
           [User.mk (next_id (map User.id (users d)))
              username email password now is_admin])
          (relationships d) (posts d)).

(** [User.create_user] *)
Definition create_user (now : Z) (username email password : str)
    (admin : bool) (d : Database) : result Database :=
  match
    User_create now username email (generate_password_hash password) admin d
  with
  | Raise IntegrityError =>
      Raise (ValueError (str_of_string "User already exists"))
  | r => r
  end.

(** [Relationship.create]: the pair [(from_user, to_user)] carries a
    unique index. *)
Definition Relationship_create (from_user to_user : Z) (d : Database)
  : result Database :=
  if existsb
       (fun r => (Relationship.from_user r =? from_user)
                 && (Relationship.to_user r =? to_user))
       (relationships d)
  then Raise IntegrityError
  else
    Ok (mkDatabase (users d)
          (relationships d ++
           [Relationship.mk (next_id (map Relationship.id (relationships d)))
              from_user to_user])
          (posts d)).

(** [Relationship.get(from_user=..., to_user=...)] *)
Definition Relationship_get (from_user to_user : Z) (d : Database)
  : result Relationship.t :=
  get (Relationship_select
         (fun r => (Relationship.from_user r =? from_user)
                   && (Relationship.to_user r =? to_user))
         d).

(** [row.delete_instance()]: delete the row with this primary key. *)
Definition delete_instance (row : Relationship.t) (d : Database) : Database :=
  mkDatabase (users d)
    (filter (fun r => negb (Relationship.id r =? Relationship.id row))
       (relationships d))
    (posts d).

(** [Post.create] *)
Definition Post_create (now : Z) (user : User.t) (content : str)
    (d : Database) : Database :=
  mkDatabase (users d) (relationships d)
    (posts d ++
     [Post.mk (next_id (map Post.id (posts d))) now (User.id user) content]).

(** ** The forms *)

(** wtforms' [DataRequired]: the data is truthy and not only white
    space. *)
Definition DataRequired (data : str) : bool :=
  truthy data && truthy (strip data).

(** A submitted [PostForm]. *)
Record PostForm := mkPostForm {
  post_csrf_ok : bool;
  post_content : str
}.

Definition PostForm_errors (form : PostForm) : list FieldError :=
  (if post_csrf_ok form then [] else [CsrfFailed])
  ++ (if DataRequired (post_content form) then [] else [Required "content"]).

(** A submitted [LoginForm]. *)
Record LoginForm := mkLoginForm {
  login_csrf_ok : bool;
  login_email : str;
  login_password : str
}.

Definition LoginForm_errors (form : LoginForm) : list FieldError :=
  (if login_csrf_ok form then [] else [CsrfFailed])
  ++ (if DataRequired (login_email form) then
        if valid_email (login_email form) then [] else [InvalidEmail "email"]
      else [Required "email"])
  ++ (if DataRequired (login_password form) then [] else [Required "password"]).

(** [form.validate()] *)
Definition validate (errors : list FieldError) : bool :=
  match errors with [] => true | _ :: _ => false end.

(** ** app.py *)

(** [load_user]: the session's account, [None] when there is none. *)
Definition load_user (w : World) : option User.t :=
  match session_user_id w with
  | None => None
  | Some userid =>
      match get (User_select (fun u => User.id u =? userid) (db w)) with
      | Ok u => Some u
      | Raise _ => None
      end
  end.

(** What [@login_required] answers to an anonymous request. *)
Definition unauthorized (w : World) : Response * World :=
  (Redirect "login" None,
   flash w (str_of_string "Please log in to access this page.") "message").

(** The view [login]; [submitted] is [None] for a GET request. *)
Definition login (w : World) (submitted : option LoginForm)
  : Response * World :=
  match submitted with
  | Some form =>
      if validate (LoginForm_errors form) then
        match
          get (User_select
                 (fun u => str_eqb (User.email u) (login_email form)) (db w))
        with
        | Raise _ =>
            (RenderForm "login.html" [],
             flash w (str_of_string "Your email or password does not match.")
               "error")
        | Ok identification =>
            if check_password_hash (User.password identification)
                 (login_password form)
            then
              (Redirect "index" None,
               flash (login_user w identification)
                 (str_of_string "Login successful!") "success")
            else
              (RenderForm "login.html" [],
               flash w
                 (str_of_string "Your email or password does not match.")
                 "error")
        end
      else (RenderForm "login.html" (LoginForm_errors form), w)
  | None => (RenderForm "login.html" [], w)
  end.

(** The view [post] (route [/new_post]). *)
Definition post (now : Z) (w : World) (submitted : option PostForm)
  : Response * World :=
  match load_user w with
  | None => unauthorized w
  | Some current_user =>
      match submitted with
      | Some form =>
          if validate (PostForm_errors form) then
            (Redirect "index" None,
             flash
               (set_db w
                  (Post_create now current_user
                     (strip (post_content form)) (db w)))
               (str_of_string "Message posted successfully") "success")
          else (RenderForm "post.html" (PostForm_errors form), w)
      | None => (RenderForm "post.html" [], w)
      end
  end.

(** The view [index] (route [/]). *)
Definition index (w : World) : Response * World :=
  (RenderStream "stream.html"
     (limit 100 (Post_select (fun _ => true) (db w))) None,
   w).

(** [User.select().where(User.username ** username).get()], the same
    query as [User.get(User.username ** username)]. *)
Definition get_by_username (username : str) (d : Database) : result User.t :=
  get (User_select (fun u => like username (User.username u)) d).

(** The view [stream] (routes [/stream] and [/stream/<username>]).  The
    anonymous user has no attribute [username] and no [get_stream]. *)
Definition stream (w : World) (username : option str) : Response * World :=
  let named :=
    match username with Some name => truthy name | None => false end in
  let template :=
    if named then "user_stream.html"%string else "stream.html"%string in
  match load_user w with
  | None => (Unhandled AttributeError, w)
  | Some current_user =>
      match username with
      | Some name =>
          if named && negb (str_eqb name (User.username current_user)) then
            match get_by_username name (db w) with
            | Raise _ => (Abort 404, w)
            | Ok user =>
                (RenderStream template (limit 100 (get_posts user (db w)))
                   (Some user), w)
            end
          else
            (RenderStream template
               (limit 100 (get_stream current_user (db w)))
               (Some current_user), w)
      | None =>
          (RenderStream template
             (limit 100 (get_stream current_user (db w)))
             (Some current_user), w)
      end
  end.

(** The view [follow]. *)
Definition follow (w : World) (username : str) : Response * World :=
  match load_user w with
  | None => unauthorized w
  | Some current_user =>
      match get_by_username username (db w) with
      | Raise _ => (Abort 404, w)
      | Ok to_user =>
          match
            Relationship_create (User.id current_user) (User.id to_user) (db w)
          with
          | Raise IntegrityError =>
              (Redirect "stream" (Some (User.username to_user)), w)
          | Raise e => (Unhandled e, w)
          | Ok d' =>
              (Redirect "stream" (Some (User.username to_user)),
               flash (set_db w d')
                 (str_of_string "Now following " ++ User.username to_user)
                 "success")
          end
      end
  end.

(** The view [unfollow]. *)
Definition unfollow (w : World) (username : str) : Response * World :=
  match load_user w with
  | None => unauthorized w
  | Some current_user =>
      match get_by_username username (db w) with
      | Raise _ => (Abort 404, w)
      | Ok to_user =>
          match
            match
              Relationship_get (User.id current_user) (User.id to_user) (db w)
            with
            | Ok row => Ok (delete_instance row (db w))
            | Raise e => Raise e
            end
          with
          | Raise IntegrityError =>
              (Redirect "stream" (Some (User.username to_user)), w)
          | Raise e => (Unhandled e, w)
          | Ok d' =>
              (Redirect "stream" (Some (User.username to_user)),
               flash (set_db w d')
                 (str_of_string "No longer following "
                  ++ User.username to_user)
                 "success")
          end
      end
  end.

(** A run of requests to [/follow/<username>], each made by the account
    the request's session holds. *)
Fixpoint follow_requests (w : World) (requests : list (option Z * str))
  : World :=
  match requests with
  | [] => w
  | (session, username) :: rest =>
      follow_requests
        (snd (follow (mkWorld (db w) session (flashes w)) username)) rest
  end.

End Application.

(** ** Vocabulary of the specification *)

(** A follow edge (a, b): a row of the relationship table from account
    [a] to account [b]. *)
Definition follow_edge (d : Database) (a b : Z) : Prop :=
  exists r, In r (relationships d)
            /\ Relationship.from_user r = a /\ Relationship.to_user r = b.

(** The post's owner is the viewer, or an account the viewer follows. *)
Definition in_feed_of (v : User.t) (d : Database) (p : Post.t) : Prop :=
  Post.user p = User.id v
  \/ exists f, In f (users d)
               /\ follow_edge d (User.id v) (User.id f)
               /\ Post.user p = User.id f.

Definition in_feed_ofb (v : User.t) (d : Database) (p : Post.t) : bool :=
  (Post.user p =? User.id v)
  || existsb
       (fun f =>
          (Post.user p =? User.id f)
          && existsb
               (fun r => (Relationship.from_user r =? User.id v)
                         && (Relationship.to_user r =? User.id f))
               (relationships d))
       (users d).

(** At most one edge per ordered pair (follower, followee). *)
Definition edges_unique (d : Database) : Prop :=
  NoDup
    (map (fun r => (Relationship.from_user r, Relationship.to_user r))
       (relationships d)).

(** The number of edges (a, b) in the relationship table. *)
Definition edge_count (d : Database) (a b : Z) : nat :=
  List.length
    (filter
       (fun r => (Relationship.from_user r =? a)
                 && (Relationship.to_user r =? b))
       (relationships d)).

(** How many times account [b] occurs in a list of accounts. *)
Definition occurrences (b : User.t) (l : list User.t) : nat :=
  List.length (filter (fun u => User.id u =? User.id b) l).

(** No stored account has this username or this email. *)
Definition available (d : Database) (username email : str) : Prop :=
  forall u, In u (users d) ->
            User.username u <> username /\ User.email u <> email.

(** The characters of a string are all white space. *)
Definition blank (s : str) : Prop := Forall (fun c => isspace c = true) s.

(** [t] is [s] without its leading and trailing white space. *)
Definition trimmed_of (s t : str) : Prop :=
  (exists l r, s = l ++ t ++ r /\ blank l /\ blank r)
  /\ (forall c t', t = c :: t' -> isspace c = false)
  /\ (forall t' c, t = t' ++ [c] -> isspace c = false).

(** [Bob] and [bob] are two accounts: the unique index on [username]
    compares exactly, so both names can be registered. *)
Definition case_twins : Database :=
  mkDatabase
    [User.mk 1 (str_of_string "Bob") (str_of_string "bob1@example.com")
       (str_of_string "hash-1") 10 false;
     User.mk 2 (str_of_string "bob") (str_of_string "bob2@example.com")
       (str_of_string "hash-2") 11 false]
    [] [].

(** The integrity constraints of the schema: primary keys are unique in
    each table and the relationship table has one row per ordered
    pair. *)
Definition consistent (d : Database) : Prop :=
  NoDup (map User.id (users d))
  /\ NoDup (map Relationship.id (relationships d))
  /\ NoDup (map Post.id (posts d))
  /\ edges_unique d.

(** ** The rest of the application *)

(** [len(s)] *)
Definition len (s : str) : nat := List.length s.

(** A character of the class [[a-zA-Z0-9_]]. *)
Definition is_word (c : N) : bool :=
  (((97 <=? c) && (c <=? 122)) || ((65 <=? c) && (c <=? 90))
   || ((48 <=? c) && (c <=? 57)) || (c =? 95))%N.

(** What is left of a string after the longest run of word characters,
    the run [[a-zA-Z0-9_]+] consumes. *)
Fixpoint after_word_run (s : str) : str :=
  match s with
  | [] => []
  | c :: s' => if is_word c then after_word_run s' else s
  end.

Definition newline : N := 10.

(** [re.match(r'^[a-zA-Z0-9_]+$', s)]: at least one word character from
    the start, then the end of the string; Python's [$] also matches
    just before a newline that ends the string. *)
Definition Regexp_username (s : str) : bool :=
  match s with
  | [] => false
  | c :: _ =>
      is_word c
      && match after_word_run s with
         | [] => true
         | [d] => N.eqb d newline
         | _ :: _ :: _ => false
         end
  end.

(** Errors of the [RegisterForm]: those of the other forms, the
    messages the source gives its validators, and [Length(min=2)]. *)
Inductive RegisterFormError :=
| Inherited (e : FieldError)
| Message (field : string) (message : string)
| TooShort (field : string) (min : nat).

(** A submitted [RegisterForm]. *)
Record RegisterForm := mkRegisterForm {
  reg_csrf_ok : bool;
  reg_username : str;
  reg_email : str;
  reg_password : str;
  reg_password2 : str
}.

(** What the view [register] returns: a response of the other views, or
    [register.html] rendered with the errors of the form. *)
Inductive RegisterResponse :=
| Answer (r : Response)
| RenderRegister (errors : list RegisterFormError).

(** A request to one of the routes of [app.py]. *)
Inductive Request :=
| GetIndex
| GetStream (username : option str)
| GetPost (post_id : Z)
| GetFollow (username : str)
| GetUnfollow (username : str)
| GetLogout
| NewPost (now : Z) (submitted : option PostForm)
| Login (submitted : option LoginForm)
| Register (now : Z) (submitted : option RegisterForm).

Section Routes.

Variable E : QueryEngine.
Variable generate_password_hash : str -> str.
Variable check_password_hash : str -> str -> bool.
Variable valid_email : str -> bool.

(** [query.exists()] *)
Definition exists_ {A : Type} (rows : list A) : bool :=
  match rows with [] => false | _ :: _ => true end.

(** [name_exists] of registerform.py: true when the validator raises. *)
Definition name_exists (d : Database) (data : str) : bool :=
  exists_ (User_select E (fun u => str_eqb (User.username u) data) d).

(** [email_exists] of registerform.py: true when the validator raises. *)
Definition email_exists (d : Database) (data : str) : bool :=
  exists_ (User_select E (fun u => str_eqb (User.email u) data) d).

(** The validators of [RegisterForm], field by field: [DataRequired]
    stops the chain of its field, the others add their error and let
    the chain go on. *)
Definition RegisterForm_errors (d : Database) (form : RegisterForm)
  : list RegisterFormError :=
  (if reg_csrf_ok form then [] else [Inherited CsrfFailed])
  ++ (if DataRequired (reg_username form) then
        (if Regexp_username (reg_username form) then []
         else [Message "username"
                 "Username should be one word, letters, numbers, and underscores only."])
        ++ (if name_exists d (reg_username form)
            then [Message "username" "User with that name already exists."]
            else [])
      else [Inherited (Required "username")])
  ++ (if DataRequired (reg_email form) then
        (if valid_email (reg_email form) then []
         else [Inherited (InvalidEmail "email")])
        ++ (if email_exists d (reg_email form)
            then [Message "email" "User with that email already exists."]
            else [])
      else [Inherited (Required "email")])
  ++ (if DataRequired (reg_password form) then
        (if (2 <=? len (reg_password form))%nat then []
         else [TooShort "password" 2])
        ++ (if str_eqb (reg_password form) (reg_password2 form) then []
            else [Message "password" "Passwords must match"])
      else [Inherited (Required "password")])
  ++ (if DataRequired (reg_password2 form) then []
      else [Inherited (Required "password2")]).

(** The view [register]: the message is flashed before the account is
    created, and no handler catches what [create_user] raises. *)
Definition register (now : Z) (w : World) (submitted : option RegisterForm)
  : RegisterResponse * World :=
  match submitted with
  | Some form =>
      match RegisterForm_errors (db w) form with
      | [] =>
          let w' :=
            flash w (str_of_string "You registered successfully.") "success" in
          match
            create_user generate_password_hash now (reg_username form)
              (reg_email form) (reg_password form) false (db w')
          with
          | Ok d' => (Answer (Redirect "index" None), set_db w' d')
          | Raise e => (Answer (Unhandled e), w')
          end
      | errors => (RenderRegister errors, w)
      end
  | None => (RenderRegister [], w)
  end.

(** [logout_user()] *)
Definition logout_user (w : World) : World :=
  mkWorld (db w) None (flashes w).

(** The view [logout]. *)
Definition logout (w : World) : Response * World :=
  match load_user E w with
  | None => unauthorized w
  | Some _ =>
      (Redirect "index" None,
       flash (logout_user w) (str_of_string "Logout successful") "success")
  end.

(** The view [view_post] (route [/post/<int:post_id>]). *)
Definition view_post (w : World) (post_id : Z) : Response * World :=
  let posts := Post_select E (fun p => Post.id p =? post_id) (db w) in
  if (List.length posts =? 0)%nat then (Abort 404, w)
  else (RenderStream "stream.html" posts None, w).

(** [models.initialize]: the three tables are created unless they
    exist; the rows of existing tables stay. *)
Definition initialize (d : Database) : Database := d.

(** The start-up block of [app.py], before [app.run]: [ValueError] is
    passed over. *)
Definition main (now : Z) (d : Database) : result Database :=
  match
    create_user generate_password_hash now (str_of_string "testuser")
      (str_of_string "test@example.com") (str_of_string "password") true
      (initialize d)
  with
  | Ok d' => Ok d'
  | Raise (ValueError _) => Ok (initialize d)
  | Raise e => Raise e
  end.

(** The state a request leaves behind. *)
Definition handle (w : World) (request : Request) : World :=
  match request with
  | GetIndex => snd (index E w)
  | GetStream username => snd (stream E w username)
  | GetPost post_id => snd (view_post w post_id)
  | GetFollow username => snd (follow E w username)
  | GetUnfollow username => snd (unfollow E w username)
  | GetLogout => snd (logout w)
  | NewPost now submitted => snd (post E now w submitted)
  | Login submitted =>
      snd (login E check_password_hash valid_email w submitted)
  | Register now submitted => snd (register now w submitted)
  end.

(** A run of requests of any clients: each request comes with the
    account id its client's session holds. *)
Fixpoint serve (w : World) (requests : list (option Z * Request)) : World :=
  match requests with
  | [] => w
  | (session, request) :: rest =>
      serve (handle (mkWorld (db w) session (flashes w)) request) rest
  end.

End Routes.

(** Every relationship row and every post refers to a stored account. *)
Definition references_resolve (d : Database) : Prop :=
  (forall r, In r (relationships d) ->
             In (Relationship.from_user r) (map User.id (users d))
             /\ In (Relationship.to_user r) (map User.id (users d)))
  /\ (forall p, In p (posts d) -> In (Post.user p) (map User.id (users d))).

(** The content of every stored post is not empty and carries no
    leading or trailing white space. *)
Definition contents_stripped (d : Database) : Prop :=
  forall p, In p (posts d) ->
            Post.content p <> [] /\ strip (Post.content p) = Post.content p.

(** A query without the wildcards of LIKE. *)
Definition plain (q : str) : Prop :=
  forall c, In c q -> c <> percent /\ c <> underscore.

(** The ways a request can change the database. *)
Inductive transition (d : Database) : Database -> Prop :=
| Unchanged : transition d d
| AccountCreated (now : Z) (username email hash : str) :
    available d username email ->
    transition d
      (mkDatabase
         (users d ++
          [User.mk (next_id (map User.id (users d))) username email hash now
             false])
         (relationships d) (posts d))
| EdgeAdded (a b : User.t) :
    In a (users d) -> In b (users d) ->
    ~ follow_edge d (User.id a) (User.id b) ->
    transition d
      (mkDatabase (users d)
         (relationships d ++
          [Relationship.mk (next_id (map Relationship.id (relationships d)))
             (User.id a) (User.id b)])
         (posts d))
| RowDeleted (row : Relationship.t) :
    In row (relationships d) ->
    transition d (delete_instance row d)
| PostAppended (now : Z) (owner : User.t) (content : str) :
    In owner (users d) ->
    content <> [] -> strip content = content ->
    transition d (Post_create now owner content d).

(** A chain of transitions. *)
Inductive transitions (d : Database) : Database -> Prop :=
| NoStep : transitions d d
| OneMore (d1 d2 : Database) :
    transition d d1 -> transitions d1 d2 -> transitions d d2.

(** A stand-in for flask_bcrypt in examples: the hash of a password is
    the password behind a dollar sign. *)
Definition toy_hash (p : str) : str := 36%N :: p.
Definition toy_check (h p : str) : bool := str_eqb h (toy_hash p).

(** A run of requests on an empty store: [dave] registers, logs in,
    posts, follows himself and unfollows [nobody]. *)
Definition dave_form : RegisterForm :=
  mkRegisterForm true (str_of_string "dave")
    (str_of_string "dave@example.com") (str_of_string "pw")
    (str_of_string "pw").

Definition sample_run : list (option Z * Request) :=
  [(None, Register 5 (Some dave_form));
   (None, Login (Some (mkLoginForm true (str_of_string "dave@example.com")
                         (str_of_string "pw"))));
   (Some 1, NewPost 6 (Some (mkPostForm true (str_of_string " hello "))));
   (Some 1, GetFollow (str_of_string "DAVE"));
   (Some 1, GetUnfollow (str_of_string "nobody"));
   (None, GetIndex)].

(** ** Sample data

    The scenario of the specification: [alice], [bob] and [carol] have
    registered, [bob] has posted "hi" and then "there", [alice] follows
    [bob]. *)

Definition alice : User.t :=
  User.mk 1 (str_of_string "alice") (str_of_string "alice@example.com")
    (str_of_string "hash-of-alice") 10 false.

Definition bob : User.t :=
  User.mk 2 (str_of_string "bob") (str_of_string "bob@example.com")
    (str_of_string "hash-of-bob") 11 false.

Definition carol : User.t :=
  User.mk 3 (str_of_string "carol") (str_of_string "carol@example.com")
    (str_of_string "hash-of-carol") 12 false.

Definition sample_db : Database :=
  mkDatabase [alice; bob; carol]
    [Relationship.mk 1 1 2]
    [Post.mk 1 20 2 (str_of_string "hi");
     Post.mk 2 21 2 (str_of_string "there");
     Post.mk 3 22 3 (str_of_string "elsewhere")].

(** [alice] is logged in. *)
Definition sample_world : World := mkWorld sample_db (Some 1) [].

(** [n] posts of [bob], the post with id [k] written at time [k]. *)
Definition numbered_posts (n : nat) : list Post.t :=
  map (fun k => Post.mk (Z.of_nat k) (Z.of_nat k) 2 (str_of_string "post"))
    (seq 1 n).

Definition busy_world : World :=
  mkWorld (mkDatabase [alice; bob] [] (numbered_posts 150)) None [].

(** * Properties *)

(** ** Strings *)

Lemma str_eqb_eq (a b : str) : str_eqb a b = true <-> a = b.
Proof.
  revert b; induction a as [|x a IH]; intros [|y b]; simpl;
    try (split; [discriminate | intros H; inversion H]); try tauto.
  rewrite andb_true_iff, N.eqb_eq, IH.
  split; [intros [-> ->]; reflexivity | intros H; inversion H; auto].
Qed.

Lemma str_eqb_refl (a : str) : str_eqb a a = true.
Proof. apply str_eqb_eq; reflexivity. Qed.

(** ** Query engines *)

Lemma rowid_order_returns : returns_selected_rows rowid_order.
Proof. intros A tables rows; apply Permutation_refl. Qed.

Lemma In_firstn {A : Type} (n : nat) (l : list A) (x : A) :
  In x (firstn n l) -> In x l.
Proof.
  intros H; rewrite <- (firstn_skipn n l); apply in_or_app; left; exact H.
Qed.

Lemma In_skipn {A : Type} (n : nat) (l : list A) (x : A) :
  In x (skipn n l) -> In x l.
Proof.
  intros H; rewrite <- (firstn_skipn n l); apply in_or_app; right; exact H.
Qed.

(** ** The personal stream *)

Section Streams.

Variable E : QueryEngine.
Hypothesis HE : returns_selected_rows E.

Lemma engine_In {A : Type} (tables : Database) (rows : list A) (x : A) :
  In x (E A tables rows) <-> In x rows.
Proof.
  pose proof (HE A tables rows) as Hp; split; intros H.
  - eapply Permutation_in; [symmetry; exact Hp | exact H].
  - eapply Permutation_in; [exact Hp | exact H].
Qed.

Lemma in_feed_ofb_spec (v : User.t) (d : Database) (p : Post.t) :
  in_feed_ofb v d p = true <-> in_feed_of v d p.
Proof.
  unfold in_feed_ofb, in_feed_of, follow_edge.
  rewrite orb_true_iff, Z.eqb_eq, existsb_exists.
  split; (intros [H | H]; [left; exact H | right]).
  - destruct H as (f & Hf & H).
    rewrite andb_true_iff, Z.eqb_eq, existsb_exists in H.
    destruct H as (Hown & r & Hr & H).
    rewrite andb_true_iff, !Z.eqb_eq in H.
    exists f; repeat split; try tauto. exists r; tauto.
  - destruct H as (f & Hf & (r & Hr & Hfrom & Hto) & Hown).
    exists f; split; [exact Hf|].
    rewrite andb_true_iff, Z.eqb_eq, existsb_exists; split; [exact Hown|].
    exists r; rewrite andb_true_iff, !Z.eqb_eq; tauto.
Qed.

Lemma following_In (self : User.t) (d : Database) (u : User.t) :
  In u (following E self d) <->
  In u (users d) /\ follow_edge d (User.id self) (User.id u).
Proof.
  unfold following, follow_edge.
  rewrite engine_In, in_map_iff; split.
  - intros ([u' r] & Hfst & Hin); simpl in Hfst; subst u'.
    apply filter_In in Hin; destruct Hin as [Hin Hfrom]; simpl in Hfrom.
    apply in_flat_map in Hin; destruct Hin as (u0 & Hu0 & Hin).
    apply in_map_iff in Hin; destruct Hin as (r0 & Heq & Hr0).
    inversion Heq; subst u0 r0.
    apply filter_In in Hr0; destruct Hr0 as [Hr Hto].
    apply Z.eqb_eq in Hfrom, Hto.
    split; [exact Hu0 | exists r; tauto].
  - intros (Hu & r & Hr & Hfrom & Hto).
    exists (u, r); split; [reflexivity|].
    apply filter_In; split; [|simpl; apply Z.eqb_eq; exact Hfrom].
    apply in_flat_map; exists u; split; [exact Hu|].
    apply in_map, filter_In; split; [exact Hr | apply Z.eqb_eq; exact Hto].
Qed.

Lemma get_stream_cond (self : User.t) (d : Database) (p : Post.t) :
  existsb (fun u => Post.user p =? User.id u) (following E self d)
  || (Post.user p =? User.id self)
  = in_feed_ofb self d p.
Proof.
  apply eq_true_iff_eq.
  rewrite in_feed_ofb_spec; unfold in_feed_of.
  rewrite orb_true_iff, Z.eqb_eq, existsb_exists; split.
  - intros [(u & Hu & Hown) | Hown]; [right | left; exact Hown].
    apply following_In in Hu; apply Z.eqb_eq in Hown.
    exists u; tauto.
  - intros [Hown | (f & Hf & Hedge & Hown)]; [right; exact Hown | left].
    exists f; split; [apply following_In; tauto | apply Z.eqb_eq; exact Hown].
Qed.

Lemma get_stream_perm (self : User.t) (d : Database) :
  Permutation (filter (in_feed_ofb self d) (posts d)) (get_stream E self d).
Proof.
  unfold get_stream.
  erewrite filter_ext; [apply HE|].
  intros p; symmetry; apply get_stream_cond.
Qed.

(** C1. The personal stream of a logged-in viewer is the first 100 rows
    of an arrangement of exactly the posts owned by the viewer or by an
    account the viewer follows: every row shown is such a post, every
    such post is shown when there are at most 100 of them, and the
    stream has 100 rows otherwise. *)
Theorem personal_stream_union (w : World) (v : User.t) :
  load_user E w = Some v ->
  exists s full,
    stream E w None = (RenderStream "stream.html" s (Some v), w)
    /\ Permutation (filter (in_feed_ofb v (db w)) (posts (db w))) full
    /\ s = firstn 100 full
    /\ (forall p, In p s -> In p (posts (db w)) /\ in_feed_of v (db w) p)
    /\ ((List.length (filter (in_feed_ofb v (db w)) (posts (db w))) <= 100)%nat ->
        forall p, In p (posts (db w)) -> in_feed_of v (db w) p -> In p s)
    /\ List.length s
       = Nat.min 100 (List.length (filter (in_feed_ofb v (db w)) (posts (db w)))).
Proof.
  intros Hv.
  exists (limit 100 (get_stream E v (db w))), (get_stream E v (db w)).
  pose proof (get_stream_perm v (db w)) as Hp.
  split; [unfold stream; rewrite Hv; reflexivity|].
  split; [exact Hp|].
  split; [reflexivity|].
  split; [|split].
  - intros p Hin; apply In_firstn in Hin.
    apply (Permutation_in _ (Permutation_sym Hp)) in Hin.
    apply filter_In in Hin; destruct Hin as [Hin Hb].
    split; [exact Hin | apply in_feed_ofb_spec; exact Hb].
  - intros Hlen p Hin Hfeed.
    unfold limit; rewrite firstn_all2.
    + apply (Permutation_in _ Hp), filter_In; split; [exact Hin|].
      apply in_feed_ofb_spec; exact Hfeed.
    + rewrite <- (Permutation_length Hp); exact Hlen.
  - unfold limit; rewrite length_firstn, (Permutation_length Hp); reflexivity.
Qed.

End Streams.

Lemma personal_stream_union_witness :
  exists s full,
    stream rowid_order sample_world None
    = (RenderStream "stream.html" s (Some alice), sample_world)
    /\ Permutation
         (filter (in_feed_ofb alice (db sample_world))
            (posts (db sample_world))) full
    /\ s = firstn 100 full
    /\ (forall p, In p s ->
          In p (posts (db sample_world))
          /\ in_feed_of alice (db sample_world) p)
    /\ ((List.length
           (filter (in_feed_ofb alice (db sample_world))
              (posts (db sample_world))) <= 100)%nat ->
        forall p, In p (posts (db sample_world)) ->
                  in_feed_of alice (db sample_world) p -> In p s)
    /\ List.length s
       = Nat.min 100
           (List.length
              (filter (in_feed_ofb alice (db sample_world))
                 (posts (db sample_world)))).
Proof.
  apply (personal_stream_union rowid_order rowid_order_returns sample_world
           alice).
  reflexivity.
Defined.

(** ** The order of the streams *)

(** C2, on the code. In the scenario of the specification ([bob] posts
    "hi" and then "there", [alice] follows [bob]) the personal stream of
    [alice] is "hi", then "there": the posts come back as the table
    scan yields them, oldest first, not sorted by timestamp
    descending.  [get_stream] calls no [order_by] and the ordering that
    [Post.Meta] declares is not applied. *)
Theorem personal_stream_oldest_first :
  stream rowid_order sample_world None
  = (RenderStream "stream.html"
       [Post.mk 1 20 2 (str_of_string "hi");
        Post.mk 2 21 2 (str_of_string "there")]
       (Some alice),
     sample_world)
  /\ ~ descending Post.timestamp
        [Post.mk 1 20 2 (str_of_string "hi");
         Post.mk 2 21 2 (str_of_string "there")].
Proof.
  split; [reflexivity|].
  unfold descending; intros Hsorted.
  apply StronglySorted_inv in Hsorted; destruct Hsorted as [_ Hall].
  apply Forall_inv in Hall; simpl in Hall; lia.
Qed.

Lemma filter_all {A : Type} (l : list A) : filter (fun _ => true) l = l.
Proof. induction l as [|x l IH]; simpl; [|rewrite IH]; reflexivity. Qed.

(** C3, on the code. The landing view shows the first 100 rows of the
    post table as the scan yields them.  With 150 posts stored, the
    post with id [k] written at time [k], it shows the posts 1 to 100:
    the 100 oldest, oldest first, and it omits post 150, which is newer
    than every post shown.  [index] calls no [order_by] and the ordering
    that [Post.Meta] declares is not applied. *)
Theorem index_oldest_first :
  (forall w,
      index rowid_order w
      = (RenderStream "stream.html" (firstn 100 (posts (db w))) None, w))
  /\ exists s,
      index rowid_order busy_world
      = (RenderStream "stream.html" s None, busy_world)
      /\ map Post.id s = map Z.of_nat (seq 1 100)
      /\ ~ descending Post.timestamp s
      /\ exists p q,
          In p s /\ In q (posts (db busy_world)) /\ ~ In q s
          /\ Post.timestamp p < Post.timestamp q.
Proof.
  assert (Hindex : forall w,
    index rowid_order w
    = (RenderStream "stream.html" (firstn 100 (posts (db w))) None, w)).
  { intros w; unfold index, Post_select, limit, rowid_order.
    rewrite filter_all; reflexivity. }
  split; [exact Hindex|].
  exists (firstn 100 (posts (db busy_world))).
  assert (Hids : map Post.id (firstn 100 (posts (db busy_world)))
                 = map Z.of_nat (seq 1 100)) by (vm_compute; reflexivity).
  split; [apply Hindex|].
  split; [exact Hids|].
  split.
  - unfold descending; intros Hsorted.
    change (firstn 100 (posts (db busy_world)))
      with (Post.mk 1 1 2 (str_of_string "post")
            :: Post.mk 2 2 2 (str_of_string "post")
            :: firstn 98 (skipn 2 (posts (db busy_world)))) in Hsorted.
    apply StronglySorted_inv in Hsorted; destruct Hsorted as [_ Hall].
    apply Forall_inv in Hall; simpl in Hall; lia.
  - exists (Post.mk 1 1 2 (str_of_string "post")),
           (Post.mk 150 150 2 (str_of_string "post")).
    split; [left; reflexivity|].
    split.
    { change (In ((fun k => Post.mk (Z.of_nat k) (Z.of_nat k) 2
                               (str_of_string "post")) 150%nat)
                (map (fun k => Post.mk (Z.of_nat k) (Z.of_nat k) 2
                                 (str_of_string "post")) (seq 1 150))).
      apply in_map, in_seq; lia. }
    split; [|simpl; lia].
    intros Hin; apply (in_map Post.id) in Hin; rewrite Hids in Hin.
    apply in_map_iff in Hin; destruct Hin as (k & Hk & Hseq).
    apply in_seq in Hseq; simpl in Hk; lia.
Qed.

(** ** The follow graph *)

Section FollowGraph.

Variable E : QueryEngine.
Hypothesis HE : returns_selected_rows E.

Lemma edge_existsb (d : Database) (a b : Z) :
  existsb
    (fun r => (Relationship.from_user r =? a) && (Relationship.to_user r =? b))
    (relationships d) = true
  <-> follow_edge d a b.
Proof.
  unfold follow_edge; rewrite existsb_exists.
  split; intros (r & Hr & H); exists r.
  - rewrite andb_true_iff, !Z.eqb_eq in H; tauto.
  - rewrite andb_true_iff, !Z.eqb_eq; tauto.
Qed.

Lemma follow_existing_edge (w : World) (a b : User.t) (q : str) :
  load_user E w = Some a ->
  get_by_username E q (db w) = Ok b ->
  follow_edge (db w) (User.id a) (User.id b) ->
  follow E w q = (Redirect "stream" (Some (User.username b)), w).
Proof.
  intros Ha Hb Hedge; unfold follow, Relationship_create.
  rewrite Ha, Hb.
  apply edge_existsb in Hedge; rewrite Hedge; reflexivity.
Qed.

Lemma follow_new_edge (w : World) (a b : User.t) (q : str) :
  load_user E w = Some a ->
  get_by_username E q (db w) = Ok b ->
  ~ follow_edge (db w) (User.id a) (User.id b) ->
  follow E w q
  = (Redirect "stream" (Some (User.username b)),
     flash
       (set_db w
          (mkDatabase (users (db w))
             (relationships (db w) ++
              [Relationship.mk
                 (next_id (map Relationship.id (relationships (db w))))
                 (User.id a) (User.id b)])
             (posts (db w))))
       (str_of_string "Now following " ++ User.username b) "success").
Proof.
  intros Ha Hb Hedge; unfold follow, Relationship_create.
  rewrite Ha, Hb.
  destruct (existsb _ (relationships (db w))) eqn:Hex; [|reflexivity].
  apply edge_existsb in Hex; contradiction.
Qed.

Lemma edges_unique_add (d : Database) (a b id : Z) :
  edges_unique d -> ~ follow_edge d a b ->
  edges_unique
    (mkDatabase (users d)
       (relationships d ++ [Relationship.mk id a b]) (posts d)).
Proof.
  unfold edges_unique; simpl; intros Hu Hedge.
  rewrite map_app; simpl.
  eapply Permutation_NoDup; [apply Permutation_cons_append|].
  constructor; [|exact Hu].
  rewrite in_map_iff; intros (r & Heq & Hr).
  inversion Heq; apply Hedge; exists r; tauto.
Qed.

(** Whatever the request, [follow] leaves the accounts, the posts and
    the session alone and keeps the edges unique. *)
Lemma follow_frame (w : World) (q : str) :
  users (db (snd (follow E w q))) = users (db w)
  /\ posts (db (snd (follow E w q))) = posts (db w)
  /\ session_user_id (snd (follow E w q)) = session_user_id w
  /\ (edges_unique (db w) -> edges_unique (db (snd (follow E w q)))).
Proof.
  unfold follow.
  destruct (load_user E w) as [a|]; [|simpl; tauto].
  destruct (get_by_username E q (db w)) as [b|e]; [|simpl; tauto].
  unfold Relationship_create.
  destruct (existsb _ (relationships (db w))) eqn:Hex; [simpl; tauto|].
  simpl; repeat split; intros Hu.
  apply edges_unique_add; [exact Hu|].
  intros Hedge; apply edge_existsb in Hedge; congruence.
Qed.

Lemma follow_requests_unique (requests : list (option Z * str)) (w : World) :
  edges_unique (db w) -> edges_unique (db (follow_requests E w requests)).
Proof.
  revert w; induction requests as [|[session q] rest IH]; intros w Hu; simpl.
  - exact Hu.
  - apply IH.
    apply (follow_frame (mkWorld (db w) session (flashes w)) q); exact Hu.
Qed.

Lemma edge_count_unique (d : Database) (a b : Z) :
  edges_unique d -> follow_edge d a b -> edge_count d a b = 1%nat.
Proof.
  unfold edges_unique, follow_edge, edge_count.
  induction (relationships d) as [|r l IH]; simpl; intros Hu (r0 & Hin & Hf & Ht).
  - contradiction.
  - apply NoDup_cons_iff in Hu; destruct Hu as [Hnotin Hu].
    destruct ((Relationship.from_user r =? a) && (Relationship.to_user r =? b))
      eqn:Hr.
    + apply andb_true_iff in Hr; rewrite !Z.eqb_eq in Hr; destruct Hr as [<- <-].
      simpl; f_equal.
      destruct (filter _ l) as [|r1 l1] eqn:Hfl; [reflexivity|exfalso].
      assert (Hin1 : In r1 (filter
        (fun r2 => (Relationship.from_user r2 =? Relationship.from_user r)
                   && (Relationship.to_user r2 =? Relationship.to_user r)) l))
        by (rewrite Hfl; left; reflexivity).
      apply filter_In in Hin1; destruct Hin1 as [Hin1 Heq].
      apply andb_true_iff in Heq; rewrite !Z.eqb_eq in Heq.
      apply Hnotin, in_map_iff; exists r1; split; [|exact Hin1].
      f_equal; tauto.
    + destruct Hin as [-> | Hin].
      * rewrite Hf, Ht, !Z.eqb_refl in Hr; discriminate.
      * apply IH; [exact Hu | exists r0; tauto].
Qed.

Lemma occurrences_unique (b : User.t) (l : list User.t) :
  NoDup (map User.id l) -> In b l -> occurrences b l = 1%nat.
Proof.
  unfold occurrences; induction l as [|u l IH]; simpl; intros Hu Hin.
  - contradiction.
  - apply NoDup_cons_iff in Hu; destruct Hu as [Hnotin Hu].
    destruct (User.id u =? User.id b) eqn:Hid.
    + apply Z.eqb_eq in Hid; simpl; f_equal.
      destruct (filter _ l) as [|u1 l1] eqn:Hfl; [reflexivity|exfalso].
      assert (Hin1 : In u1 (filter (fun u0 => User.id u0 =? User.id b) l))
        by (rewrite Hfl; left; reflexivity).
      apply filter_In in Hin1; destruct Hin1 as [Hin1 Heq].
      apply Z.eqb_eq in Heq.
      apply Hnotin, in_map_iff; exists u1; split; [congruence | exact Hin1].
    + destruct Hin as [-> | Hin]; [rewrite Z.eqb_refl in Hid; discriminate|].
      apply IH; assumption.
Qed.

Lemma Permutation_filter_length {A : Type} (f : A -> bool) (l l' : list A) :
  Permutation l l' ->
  List.length (filter f l) = List.length (filter f l').
Proof.
  induction 1 as [|x l l' _ IH|x y l|l l' l'' _ IH1 _ IH2]; simpl.
  - reflexivity.
  - destruct (f x); simpl; rewrite IH; reflexivity.
  - destruct (f x), (f y); reflexivity.
  - rewrite IH1; exact IH2.
Qed.

Lemma join_one (a b u : User.t) (l : list Relationship.t) :
  occurrences b
    (map fst
       (filter (fun ur => Relationship.from_user (snd ur) =? User.id a)
          (map (pair u)
             (filter (fun r => Relationship.to_user r =? User.id u) l))))
  = if User.id u =? User.id b
    then List.length
           (filter
              (fun r => (Relationship.from_user r =? User.id a)
                        && (Relationship.to_user r =? User.id b)) l)
    else 0%nat.
Proof.
  unfold occurrences.
  destruct (User.id u =? User.id b) eqn:Hub.
  - apply Z.eqb_eq in Hub; rewrite <- Hub.
    induction l as [|r l IH]; simpl; [reflexivity|].
    destruct (Relationship.to_user r =? User.id u); simpl;
      [|rewrite andb_false_r; exact IH].
    rewrite andb_true_r.
    destruct (Relationship.from_user r =? User.id a); simpl; [|exact IH].
    rewrite Hub, Z.eqb_refl; simpl; f_equal.
    rewrite <- Hub; exact IH.
  - induction l as [|r l IH]; simpl; [reflexivity|].
    destruct (Relationship.to_user r =? User.id u); simpl; [|exact IH].
    destruct (Relationship.from_user r =? User.id a); simpl; [|exact IH].
    rewrite Hub; exact IH.
Qed.

Lemma following_occurrences (a b : User.t) (d : Database) :
  occurrences b (following E a d)
  = (edge_count d (User.id a) (User.id b) * occurrences b (users d))%nat.
Proof.
  unfold following.
  pose proof (HE User.t (user_and_relationship_tables d)
    (map fst
       (filter (fun ur => Relationship.from_user (snd ur) =? User.id a)
          (flat_map
             (fun u =>
                map (pair u)
                  (filter (fun r => Relationship.to_user r =? User.id u)
                     (relationships d)))
             (users d))))) as Hp.
  unfold occurrences at 1.
  rewrite <- (Permutation_filter_length _ _ _ Hp).
  clear Hp; unfold edge_count, occurrences.
  induction (users d) as [|u l IH]; simpl; [lia|].
  rewrite filter_app, map_app, filter_app, length_app.
  pose proof (join_one a b u (relationships d)) as Hj.
  unfold occurrences in Hj; rewrite Hj, IH.
  destruct (User.id u =? User.id b); simpl; lia.
Qed.

Lemma load_user_frame (w w' : World) :
  users (db w') = users (db w) ->
  session_user_id w' = session_user_id w ->
  load_user E w' = load_user E w.
Proof.
  intros Hu Hs; unfold load_user, User_select, user_table.
  rewrite Hu, Hs; reflexivity.
Qed.

Lemma get_by_username_frame (q : str) (d d' : Database) :
  users d' = users d -> get_by_username E q d' = get_by_username E q d.
Proof.
  intros Hu; unfold get_by_username, User_select, user_table.
  rewrite Hu; reflexivity.
Qed.

Lemma get_by_username_In (q : str) (d : Database) (u : User.t) :
  get_by_username E q d = Ok u ->
  In u (users d) /\ like q (User.username u) = true.
Proof.
  unfold get_by_username, User_select, get.
  destruct (E User.t _ _) as [|u0 l] eqn:Hsel; [discriminate|].
  intros Hok; inversion Hok; subst u0.
  assert (Hin : In u (E User.t (user_table d)
            (filter (fun u1 => like q (User.username u1)) (users d))))
    by (rewrite Hsel; left; reflexivity).
  pose proof (HE User.t (user_table d)
                (filter (fun u1 => like q (User.username u1)) (users d)))
    as Hp.
  apply (Permutation_in _ (Permutation_sym Hp)) in Hin.
  apply filter_In in Hin; exact Hin.
Qed.

Lemma follow_establishes_edge (w : World) (a b : User.t) (q : str) :
  load_user E w = Some a ->
  get_by_username E q (db w) = Ok b ->
  follow_edge (db (snd (follow E w q))) (User.id a) (User.id b).
Proof.
  intros Ha Hb.
  destruct (existsb
    (fun r => (Relationship.from_user r =? User.id a)
              && (Relationship.to_user r =? User.id b))
    (relationships (db w))) eqn:Hex.
  - apply edge_existsb in Hex.
    rewrite (follow_existing_edge w a b q Ha Hb Hex); exact Hex.
  - assert (Hno : ~ follow_edge (db w) (User.id a) (User.id b))
      by (intros H; apply edge_existsb in H; congruence).
    rewrite (follow_new_edge w a b q Ha Hb Hno); simpl.
    eexists; split; [apply in_or_app; right; left; reflexivity|].
    split; reflexivity.
Qed.

(** C4. Following an account that is already followed answers with the
    same redirect and changes nothing, flashing no message; no run of
    follow requests creates a second edge for an ordered pair; after two
    follow requests of [a] for [b] there is one edge (a, b) and [b]
    occurs once among the accounts [a] follows. *)
Theorem follow_idempotent (w : World) (a b : User.t) (q : str) :
  load_user E w = Some a ->
  get_by_username E q (db w) = Ok b ->
  edges_unique (db w) ->
  NoDup (map User.id (users (db w))) ->
  (follow_edge (db w) (User.id a) (User.id b) ->
   follow E w q = (Redirect "stream" (Some (User.username b)), w))
  /\ (forall requests, edges_unique (db (follow_requests E w requests)))
  /\ (let w1 := snd (follow E w q) in
      let w2 := snd (follow E w1 q) in
      follow E w1 q = (Redirect "stream" (Some (User.username b)), w1)
      /\ w2 = w1
      /\ edge_count (db w2) (User.id a) (User.id b) = 1%nat
      /\ occurrences b (following E a (db w2)) = 1%nat).
Proof.
  intros Ha Hb Hu Hids.
  split; [apply follow_existing_edge; assumption|].
  split; [intros requests; apply follow_requests_unique; exact Hu|].
  destruct (follow_frame w q) as (Husers & _ & Hsess & Huniq).
  pose proof (follow_establishes_edge w a b q Ha Hb) as Hedge.
  assert (Hagain :
    follow E (snd (follow E w q)) q
    = (Redirect "stream" (Some (User.username b)), snd (follow E w q))).
  { apply follow_existing_edge with (a := a); [| |exact Hedge].
    - rewrite (load_user_frame w _ Husers Hsess); exact Ha.
    - rewrite (get_by_username_frame q _ _ Husers); exact Hb. }
  cbv zeta; rewrite Hagain; simpl.
  repeat split.
  - apply edge_count_unique; [apply Huniq; exact Hu | exact Hedge].
  - rewrite following_occurrences, Husers.
    rewrite edge_count_unique; [|apply Huniq; exact Hu | exact Hedge].
    rewrite occurrences_unique; [reflexivity | exact Hids|].
    apply (get_by_username_In q (db w) b Hb).
Qed.

(** C5, on the code. When no edge (a, b) exists, [unfollow] leaves the
    state unchanged but does not complete silently:
    [Relationship.get] raises [DoesNotExist], the handler of the view
    catches [IntegrityError] only, and the exception leaves the view. *)
Theorem unfollow_absent_edge_raises (w : World) (a b : User.t) (q : str) :
  load_user E w = Some a ->
  get_by_username E q (db w) = Ok b ->
  ~ follow_edge (db w) (User.id a) (User.id b) ->
  unfollow E w q = (Unhandled DoesNotExist, w).
Proof.
  intros Ha Hb Hedge; unfold unfollow, Relationship_get, Relationship_select.
  rewrite Ha, Hb.
  destruct (filter _ (relationships (db w))) as [|r l] eqn:Hf; [reflexivity|].
  exfalso; apply Hedge.
  assert (Hin : In r (filter
    (fun r0 => (Relationship.from_user r0 =? User.id a)
               && (Relationship.to_user r0 =? User.id b))
    (relationships (db w)))) by (rewrite Hf; left; reflexivity).
  apply filter_In in Hin; destruct Hin as [Hin Heq].
  apply andb_true_iff in Heq; rewrite !Z.eqb_eq in Heq.
  exists r; tauto.
Qed.

End FollowGraph.

Ltac nodup_by_computation :=
  repeat (constructor; [simpl; intuition discriminate|]); constructor.

Lemma sample_edge :
  follow_edge (db sample_world) (User.id alice) (User.id bob).
Proof. exists (Relationship.mk 1 1 2); simpl; auto. Qed.

Lemma follow_idempotent_witness :
  follow rowid_order sample_world (str_of_string "bob")
  = (Redirect "stream" (Some (User.username bob)), sample_world)
  /\ (forall requests,
        edges_unique (db (follow_requests rowid_order sample_world requests)))
  /\ (let w1 := snd (follow rowid_order sample_world (str_of_string "bob")) in
      let w2 := snd (follow rowid_order w1 (str_of_string "bob")) in
      follow rowid_order w1 (str_of_string "bob")
      = (Redirect "stream" (Some (User.username bob)), w1)
      /\ w2 = w1
      /\ edge_count (db w2) (User.id alice) (User.id bob) = 1%nat
      /\ occurrences bob (following rowid_order alice (db w2)) = 1%nat).
Proof.
  destruct (follow_idempotent rowid_order rowid_order_returns sample_world
              alice bob (str_of_string "bob")) as (Hnoop & Hrest).
  - reflexivity.
  - reflexivity.
  - unfold edges_unique; simpl; nodup_by_computation.
  - simpl; nodup_by_computation.
  - split; [exact (Hnoop sample_edge) | exact Hrest].
Defined.

(** [alice] follows [carol] twice: one new edge, one flashed message. *)
Example follow_carol_twice :
  let w1 := snd (follow rowid_order sample_world (str_of_string "Carol")) in
  let w2 := snd (follow rowid_order w1 (str_of_string "CAROL")) in
  relationships (db w2) = [Relationship.mk 1 1 2; Relationship.mk 2 1 3]
  /\ flashes w2 = [(str_of_string "Now following carol", "success"%string)].
Proof. vm_compute; split; reflexivity. Qed.

Lemma unfollow_absent_edge_raises_witness :
  unfollow rowid_order sample_world (str_of_string "carol")
  = (Unhandled DoesNotExist, sample_world).
Proof.
  apply (unfollow_absent_edge_raises rowid_order sample_world alice carol
           (str_of_string "carol")).
  - reflexivity.
  - reflexivity.
  - intros (r & Hin & Hfrom & Hto); simpl in Hin.
    destruct Hin as [<- | []]; simpl in Hto; discriminate Hto.
Defined.

(** When the edge exists, [unfollow] deletes it and flashes a message. *)
Example unfollow_bob :
  unfollow rowid_order sample_world (str_of_string "bob")
  = (Redirect "stream" (Some (User.username bob)),
     mkWorld (mkDatabase (users sample_db) [] (posts sample_db)) (Some 1)
       [(str_of_string "No longer following bob", "success"%string)]).
Proof. vm_compute; reflexivity. Qed.

(** ** Accounts *)

Section Accounts.

Variable generate_password_hash : str -> str.

Lemma taken_existsb (d : Database) (username email : str) :
  existsb
    (fun u => str_eqb (User.username u) username
              || str_eqb (User.email u) email)
    (users d) = false
  <-> available d username email.
Proof.
  unfold available; split.
  - intros Hex u Hin.
    assert (Hu : str_eqb (User.username u) username
                 || str_eqb (User.email u) email = false).
    { destruct (str_eqb (User.username u) username
                || str_eqb (User.email u) email) eqn:Hb; [|reflexivity].
      rewrite <- Hex; symmetry; apply existsb_exists; exists u; tauto. }
    apply orb_false_iff in Hu; destruct Hu as [Hn He].
    split; intros Heq; apply str_eqb_eq in Heq; congruence.
  - intros Hav.
    destruct (existsb _ (users d)) eqn:Hex; [exfalso|reflexivity].
    apply existsb_exists in Hex; destruct Hex as (u & Hin & Hb).
    destruct (Hav u Hin) as [Hn He].
    apply orb_true_iff in Hb; destruct Hb as [Hb | Hb];
      apply str_eqb_eq in Hb; contradiction.
Qed.

Lemma create_user_second_fails
    (now1 now2 : Z) (username1 email1 password1 : str) (admin1 : bool)
    (username2 email2 password2 : str) (admin2 : bool) (d d1 : Database) :
  username1 = username2 \/ email1 = email2 ->
  create_user generate_password_hash now1 username1 email1 password1
    admin1 d = Ok d1 ->
  create_user generate_password_hash now2 username2 email2 password2
    admin2 d1
  = Raise (ValueError (str_of_string "User already exists")).
Proof.
  intros Hshare; unfold create_user, User_create.
  destruct (existsb _ (users d)) eqn:Hex; [discriminate|].
  intros Hok; inversion Hok; subst d1; clear Hok; simpl.
  rewrite existsb_app; simpl.
  assert (Hnew : str_eqb username1 username2 || str_eqb email1 email2 = true).
  { apply orb_true_iff.
    destruct Hshare as [-> | ->]; [left | right]; apply str_eqb_refl. }
  rewrite Hnew, orb_true_r; reflexivity.
Qed.

(** C6. Of two [create_user] calls that share the username or share the
    email, made when neither is taken yet, the first creates one account
    and the second raises [ValueError] ("User already exists") and
    stores nothing.  The decision is the unique indexes' alone: the one
    test of [User_create], made together with the insert. *)
Theorem create_user_unique
    (now1 now2 : Z) (username1 email1 password1 : str) (admin1 : bool)
    (username2 email2 password2 : str) (admin2 : bool) (d : Database) :
  username1 = username2 \/ email1 = email2 ->
  available d username1 email1 ->
  exists d1,
    create_user generate_password_hash now1 username1 email1 password1
      admin1 d = Ok d1
    /\ users d1
       = users d ++
         [User.mk (next_id (map User.id (users d))) username1 email1
            (generate_password_hash password1) now1 admin1]
    /\ relationships d1 = relationships d
    /\ posts d1 = posts d
    /\ create_user generate_password_hash now2 username2 email2 password2
         admin2 d1
       = Raise (ValueError (str_of_string "User already exists")).
Proof.
  intros Hshare Hav.
  assert (Hfirst :
    create_user generate_password_hash now1 username1 email1 password1
      admin1 d
    = Ok (mkDatabase
            (users d ++
             [User.mk (next_id (map User.id (users d))) username1 email1
                (generate_password_hash password1) now1 admin1])
            (relationships d) (posts d))).
  { unfold create_user, User_create.
    apply taken_existsb in Hav; rewrite Hav; reflexivity. }
  eexists; split; [exact Hfirst|].
  repeat split.
  eapply create_user_second_fails; [exact Hshare | exact Hfirst].
Qed.

End Accounts.

Lemma sample_db_available :
  available sample_db (str_of_string "dave") (str_of_string "dave@example.com").
Proof.
  intros u Hin; simpl in Hin.
  destruct Hin as [<- | [<- | [<- | []]]]; split; discriminate.
Qed.

Lemma create_user_unique_witness :
  exists d1,
    create_user (fun p => 36%N :: p) 13 (str_of_string "dave")
      (str_of_string "dave@example.com") (str_of_string "pw") false
      sample_db = Ok d1
    /\ users d1
       = users sample_db ++
         [User.mk (next_id (map User.id (users sample_db)))
            (str_of_string "dave") (str_of_string "dave@example.com")
            (36%N :: str_of_string "pw") 13 false]
    /\ relationships d1 = relationships sample_db
    /\ posts d1 = posts sample_db
    /\ create_user (fun p => 36%N :: p) 14 (str_of_string "dave")
         (str_of_string "other@example.com") (str_of_string "pw2") true d1
       = Raise (ValueError (str_of_string "User already exists")).
Proof.
  apply (create_user_unique (fun p => 36%N :: p) 13 14).
  - left; reflexivity.
  - exact sample_db_available.
Defined.

(** The first call creates the account with id 4, a second call with
    the same email and another username is refused. *)
Example create_dave_twice :
  match
    create_user (fun p => 36%N :: p) 13 (str_of_string "dave")
      (str_of_string "dave@example.com") (str_of_string "pw") false sample_db
  with
  | Ok d1 =>
      map User.id (users d1) = [1; 2; 3; 4]
      /\ create_user (fun p => 36%N :: p) 14 (str_of_string "david")
           (str_of_string "dave@example.com") (str_of_string "pw") false d1
         = Raise (ValueError (str_of_string "User already exists"))
  | Raise _ => False
  end.
Proof. vm_compute; split; reflexivity. Qed.

(** ** Posts *)

Lemma lstrip_split (s : str) :
  exists l, s = l ++ lstrip s /\ blank l.
Proof.
  induction s as [|c s (l & Hs & Hl)]; simpl.
  - exists []; split; [reflexivity | constructor].
  - destruct (isspace c) eqn:Hc.
    + exists (c :: l); split; [simpl; f_equal; exact Hs|].
      constructor; assumption.
    + exists []; split; [reflexivity | constructor].
Qed.

Lemma lstrip_head (s : str) (c : N) (t : str) :
  lstrip s = c :: t -> isspace c = false.
Proof.
  induction s as [|d s IH]; simpl; [discriminate|].
  destruct (isspace d) eqn:Hd; [exact IH|].
  intros Heq; inversion Heq; subst; exact Hd.
Qed.

Lemma lstrip_fixed (s : str) :
  (forall c t, s = c :: t -> isspace c = false) -> lstrip s = s.
Proof.
  destruct s as [|c s]; simpl; [reflexivity|].
  intros H; rewrite (H c s eq_refl); reflexivity.
Qed.

Lemma blank_rev (s : str) : blank s -> blank (rev s).
Proof.
  unfold blank; rewrite !Forall_forall; intros H c Hin.
  apply H, in_rev; exact Hin.
Qed.

Lemma rstrip_split (s : str) :
  exists r, s = rstrip s ++ r /\ blank r.
Proof.
  unfold rstrip.
  destruct (lstrip_split (rev s)) as (l & Hs & Hl).
  exists (rev l); split; [|apply blank_rev; exact Hl].
  rewrite <- rev_app_distr, <- Hs, rev_involutive; reflexivity.
Qed.

Lemma rstrip_last (s t : str) (c : N) :
  rstrip s = t ++ [c] -> isspace c = false.
Proof.
  unfold rstrip; intros Heq.
  apply (f_equal (@rev N)) in Heq.
  rewrite rev_involutive, rev_app_distr in Heq; simpl in Heq.
  eapply lstrip_head; exact Heq.
Qed.

(** [strip] removes the leading and the trailing white space, and
    nothing else. *)
Lemma strip_trimmed (s : str) : trimmed_of s (strip s).
Proof.
  unfold trimmed_of, strip.
  destruct (lstrip_split s) as (l & Hs & Hl).
  destruct (rstrip_split (lstrip s)) as (r & Hm & Hr).
  split; [|split].
  - exists l, r; split; [|tauto].
    rewrite <- Hm; exact Hs.
  - intros c t' Heq.
    destruct (lstrip s) as [|d m] eqn:Hls.
    + discriminate Heq.
    + assert (Hd : isspace d = false) by (eapply lstrip_head; exact Hls).
      rewrite Heq in Hm; simpl in Hm; inversion Hm; subst; exact Hd.
  - intros t' c Heq; eapply rstrip_last; exact Heq.
Qed.

Lemma strip_nonempty_required (s : str) :
  strip s <> [] -> DataRequired s = true.
Proof.
  unfold DataRequired; intros Hne.
  destruct s as [|c s]; [exfalso; apply Hne; reflexivity|].
  destruct (strip (c :: s)); [contradiction | reflexivity].
Qed.

Lemma strip_empty_required (s : str) :
  strip s = [] -> DataRequired s = false.
Proof.
  unfold DataRequired; intros ->; apply andb_false_r.
Qed.

Section Posts.

Variable E : QueryEngine.

(** C7. A submitted message whose stripped form is not empty is stored
    by the view [post] as that stripped form, for the logged-in owner
    and at the time of the request; the stored content is the message
    without its leading and trailing white space. *)
Theorem post_stores_stripped
    (now : Z) (w : World) (owner : User.t) (form : PostForm) :
  load_user E w = Some owner ->
  post_csrf_ok form = true ->
  strip (post_content form) <> [] ->
  post E now w (Some form)
  = (Redirect "index" None,
     flash
       (set_db w
          (mkDatabase (users (db w)) (relationships (db w))
             (posts (db w) ++
              [Post.mk (next_id (map Post.id (posts (db w)))) now
                 (User.id owner) (strip (post_content form))])))
       (str_of_string "Message posted successfully") "success")
  /\ trimmed_of (post_content form) (strip (post_content form)).
Proof.
  intros Howner Hcsrf Hne; split; [|apply strip_trimmed].
  unfold post, PostForm_errors, Post_create.
  rewrite Howner, Hcsrf, (strip_nonempty_required _ Hne); reflexivity.
Qed.

(** C8. A submitted message that is empty once stripped is refused: the
    form is shown again with the error "required" on its content field,
    and the state, the post table with it, is unchanged. *)
Theorem post_rejects_blank
    (now : Z) (w : World) (owner : User.t) (form : PostForm) :
  load_user E w = Some owner ->
  strip (post_content form) = [] ->
  post E now w (Some form)
  = (RenderForm "post.html" (PostForm_errors form), w)
  /\ In (Required "content") (PostForm_errors form).
Proof.
  intros Howner Hblank.
  unfold post, PostForm_errors.
  rewrite Howner, (strip_empty_required _ Hblank).
  destruct (post_csrf_ok form); simpl; auto.
Qed.

End Posts.

Lemma post_stores_stripped_witness :
  post rowid_order 40 sample_world
    (Some (mkPostForm true (str_of_string "  hello  ")))
  = (Redirect "index" None,
     mkWorld
       (mkDatabase (users sample_db) (relationships sample_db)
          (posts sample_db ++ [Post.mk 4 40 1 (str_of_string "hello")]))
       (Some 1)
       [(str_of_string "Message posted successfully", "success"%string)])
  /\ trimmed_of (str_of_string "  hello  ") (str_of_string "hello").
Proof.
  apply (post_stores_stripped rowid_order 40 sample_world alice
           (mkPostForm true (str_of_string "  hello  "))).
  - reflexivity.
  - reflexivity.
  - discriminate.
Defined.

Lemma post_rejects_blank_witness :
  post rowid_order 40 sample_world
    (Some (mkPostForm true (str_of_string "   ")))
  = (RenderForm "post.html" [Required "content"], sample_world)
  /\ In (Required "content") [Required "content"].
Proof.
  apply (post_rejects_blank rowid_order 40 sample_world alice
           (mkPostForm true (str_of_string "   "))).
  - reflexivity.
  - reflexivity.
Defined.

(** ** Logging in *)

Section Login.

Variable E : QueryEngine.
Hypothesis HE : returns_selected_rows E.
Variable check_password_hash : str -> str -> bool.
Variable valid_email : str -> bool.

Lemma engine_nil {A : Type} (tables : Database) : E A tables [] = [].
Proof.
  pose proof (HE A tables []) as Hp.
  apply Permutation_nil; exact Hp.
Qed.

Lemma email_lookup_miss (d : Database) (e : str) :
  (forall u, In u (users d) -> User.email u <> e) ->
  get (User_select E (fun u => str_eqb (User.email u) e) d)
  = Raise DoesNotExist.
Proof.
  intros Hmiss; unfold User_select.
  replace (filter (fun u => str_eqb (User.email u) e) (users d)) with
    (@nil User.t); [rewrite engine_nil; reflexivity|].
  symmetry.
  induction (users d) as [|u l IH]; simpl; [reflexivity|].
  destruct (str_eqb (User.email u) e) eqn:Heq.
  - apply str_eqb_eq in Heq; exfalso.
    apply (Hmiss u); [left; reflexivity | exact Heq].
  - apply IH; intros u' Hin; apply Hmiss; right; exact Hin.
Qed.

(** C9. A login against a store where no account has the email and a
    login against a store where the account is found but the password
    check fails end the same way, whatever was submitted: the same
    response and the same flashed messages, the session untouched.
    When the form passes validation, that outcome is the login page
    rendered again with the one message "Your email or password does
    not match." flashed with category "error". *)
Theorem login_failures_indistinguishable
    (w1 w2 : World) (form : LoginForm) (found : User.t) :
  (forall u, In u (users (db w1)) -> User.email u <> login_email form) ->
  get (User_select E (fun u => str_eqb (User.email u) (login_email form))
         (db w2)) = Ok found ->
  check_password_hash (User.password found) (login_password form) = false ->
  exists response flashed,
    login E check_password_hash valid_email w1 (Some form)
    = (response,
       mkWorld (db w1) (session_user_id w1) (flashes w1 ++ flashed))
    /\ login E check_password_hash valid_email w2 (Some form)
       = (response,
          mkWorld (db w2) (session_user_id w2) (flashes w2 ++ flashed))
    /\ (validate (LoginForm_errors valid_email form) = true ->
        response = RenderForm "login.html" []
        /\ flashed
           = [(str_of_string "Your email or password does not match.",
               "error"%string)]).
Proof.
  intros Hmiss Hfound Hcheck; unfold login.
  rewrite (email_lookup_miss _ _ Hmiss), Hfound, Hcheck.
  destruct (validate (LoginForm_errors valid_email form)).
  - eexists; eexists; repeat split.
  - exists (RenderForm "login.html" (LoginForm_errors valid_email form)), [].
    rewrite !app_nil_r; destruct w1, w2; repeat split; discriminate.
Qed.

End Login.

Lemma login_failures_indistinguishable_witness :
  let form :=
    mkLoginForm true (str_of_string "bob@example.com") (str_of_string "guess")
  in
  let check := fun h p => str_eqb h (str_of_string "hash-of-" ++ p) in
  let w1 := mkWorld empty_db None [] in
  let w2 := mkWorld sample_db None [] in
  exists response flashed,
    login rowid_order check truthy w1 (Some form)
    = (response,
       mkWorld (db w1) (session_user_id w1) (flashes w1 ++ flashed))
    /\ login rowid_order check truthy w2 (Some form)
       = (response,
          mkWorld (db w2) (session_user_id w2) (flashes w2 ++ flashed))
    /\ (validate (LoginForm_errors truthy form) = true ->
        response = RenderForm "login.html" []
        /\ flashed
           = [(str_of_string "Your email or password does not match.",
               "error"%string)]).
Proof.
  apply (login_failures_indistinguishable rowid_order rowid_order_returns
           (fun h p => str_eqb h (str_of_string "hash-of-" ++ p)) truthy
           (mkWorld empty_db None []) (mkWorld sample_db None [])
           (mkLoginForm true (str_of_string "bob@example.com")
              (str_of_string "guess"))
           bob).
  - intros u [].
  - reflexivity.
  - reflexivity.
Defined.

(** A wrong password for [bob] and an unknown email get the same answer. *)
Example login_wrong_password_or_unknown_email :
  let check := fun h p => str_eqb h (str_of_string "hash-of-" ++ p) in
  let w := mkWorld sample_db None [] in
  login rowid_order check truthy w
    (Some (mkLoginForm true (str_of_string "bob@example.com")
             (str_of_string "guess")))
  = login rowid_order check truthy w
      (Some (mkLoginForm true (str_of_string "nobody@example.com")
               (str_of_string "guess")))
  /\ login rowid_order check truthy w
       (Some (mkLoginForm true (str_of_string "bob@example.com")
                (str_of_string "guess")))
     = (RenderForm "login.html" [],
        mkWorld sample_db None
          [(str_of_string "Your email or password does not match.",
            "error"%string)]).
Proof. vm_compute; split; reflexivity. Qed.

(** With the right password [bob] is logged in. *)
Example login_bob :
  login rowid_order (fun h p => str_eqb h (str_of_string "hash-of-" ++ p))
    truthy (mkWorld sample_db None [])
    (Some (mkLoginForm true (str_of_string "bob@example.com")
             (str_of_string "bob")))
  = (Redirect "index" None,
     mkWorld sample_db (Some 2)
       [(str_of_string "Login successful!", "success"%string)]).
Proof. vm_compute; reflexivity. Qed.

(** ** Resolving a username *)

Lemma like_percent (p s : str) :
  like (percent :: p) s
  = like p s
    || match s with [] => false | _ :: s' => like (percent :: p) s' end.
Proof. destruct s; reflexivity. Qed.

Lemma ascii_lower_percent (d : N) :
  ascii_lower percent = ascii_lower d -> d = percent.
Proof.
  unfold ascii_lower, percent; simpl.
  destruct ((65 <=? d)%N && (d <=? 90)%N) eqn:Hd; [|congruence].
  apply andb_true_iff in Hd; rewrite !N.leb_le in Hd; lia.
Qed.

(** A pattern matches every string equal to it up to the case of ASCII
    letters, whatever wildcards it contains. *)
Lemma like_lower (q s : str) : lower q = lower s -> like q s = true.
Proof.
  revert s; induction q as [|c q IH]; intros [|d s] Heq;
    try discriminate Heq; [reflexivity|].
  simpl in Heq; inversion Heq as [[Hc Hrest]].
  destruct (N.eqb c percent) eqn:Hpc.
  - apply N.eqb_eq in Hpc; subst c.
    apply ascii_lower_percent in Hc; subst d.
    rewrite like_percent, (like_percent q s), (IH s Hrest).
    apply orb_true_iff; right; reflexivity.
  - simpl; rewrite Hpc, Hc, N.eqb_refl, orb_true_r, (IH s Hrest); reflexivity.
Qed.

Section Usernames.

Variable E : QueryEngine.
Hypothesis HE : returns_selected_rows E.

Lemma get_by_username_found (q : str) (d : Database) (u : User.t) :
  In u (users d) -> like q (User.username u) = true ->
  exists u', get_by_username E q d = Ok u'.
Proof.
  intros Hin Hlike; unfold get_by_username, User_select, get.
  pose proof (HE User.t (user_table d)
                (filter (fun u1 => like q (User.username u1)) (users d)))
    as Hp.
  destruct (E User.t _ _) as [|u' l]; [exfalso|eexists; reflexivity].
  apply Permutation_sym, Permutation_nil in Hp.
  assert (Hf : In u (filter (fun u1 => like q (User.username u1)) (users d)))
    by (apply filter_In; tauto).
  rewrite Hp in Hf; contradiction.
Qed.

(** C10, as amended. When a stored account's username equals the query
    up to the case of its letters, the lookup by username finds an
    account whose username matches the query under LIKE, and the views
    [stream], [follow] and [unfollow] never answer "not found"; the
    account found is that account when no other stored username matches
    the query. *)
Theorem username_lookup_case_insensitive
    (w : World) (u : User.t) (q : str) :
  In u (users (db w)) ->
  lower q = lower (User.username u) ->
  (exists u',
      get_by_username E q (db w) = Ok u'
      /\ In u' (users (db w))
      /\ like q (User.username u') = true
      /\ ((forall x, In x (users (db w)) ->
                     like q (User.username x) = true -> x = u) ->
          u' = u))
  /\ fst (stream E w (Some q)) <> Abort 404
  /\ fst (follow E w q) <> Abort 404
  /\ fst (unfollow E w q) <> Abort 404.
Proof.
  intros Hin Hcase.
  pose proof (like_lower _ _ Hcase) as Hlike.
  destruct (get_by_username_found q (db w) u Hin Hlike) as [u' Hget].
  destruct (get_by_username_In E HE q (db w) u' Hget) as [Hin' Hlike'].
  split; [exists u'; repeat split; auto|].
  split; [|split].
  - unfold stream.
    destruct (load_user E w); [|discriminate].
    destruct (_ && _); [rewrite Hget|]; discriminate.
  - unfold follow.
    destruct (load_user E w); [|discriminate].
    rewrite Hget.
    destruct (Relationship_create _ _ _) as [d'|[]]; discriminate.
  - unfold unfollow.
    destruct (load_user E w); [|discriminate].
    rewrite Hget.
    destruct (Relationship_get _ _ _) as [row|[]]; discriminate.
Qed.

End Usernames.

Lemma username_lookup_case_insensitive_witness :
  (exists u',
      get_by_username rowid_order (str_of_string "BOB") (db sample_world)
      = Ok u'
      /\ In u' (users (db sample_world))
      /\ like (str_of_string "BOB") (User.username u') = true
      /\ ((forall x, In x (users (db sample_world)) ->
                     like (str_of_string "BOB") (User.username x) = true ->
                     x = bob) ->
          u' = bob))
  /\ fst (stream rowid_order sample_world (Some (str_of_string "BOB")))
     <> Abort 404
  /\ fst (follow rowid_order sample_world (str_of_string "BOB")) <> Abort 404
  /\ fst (unfollow rowid_order sample_world (str_of_string "BOB")) <> Abort 404.
Proof.
  apply (username_lookup_case_insensitive rowid_order rowid_order_returns
           sample_world bob (str_of_string "BOB")).
  - simpl; auto.
  - reflexivity.
Defined.

(** Both twins can be registered, one after the other. *)
Example register_case_twins :
  match
    create_user (fun p => p) 10 (str_of_string "Bob")
      (str_of_string "bob1@example.com") (str_of_string "hash-1") false
      empty_db
  with
  | Ok d1 =>
      create_user (fun p => p) 11 (str_of_string "bob")
        (str_of_string "bob2@example.com") (str_of_string "hash-2") false d1
      = Ok case_twins
  | Raise _ => False
  end.
Proof. vm_compute; reflexivity. Qed.

(** C10, as stated, fails: with the accounts [Bob] and [bob] stored, the
    query "bob" equals both usernames up to letter case, and the lookup
    returns one account, so it cannot resolve to each of them. *)
Lemma username_lookup_not_that_account :
  ~ (forall (E : QueryEngine) (d : Database) (u : User.t) (q : str),
        returns_selected_rows E ->
        In u (users d) ->
        lower q = lower (User.username u) ->
        get_by_username E q d = Ok u).
Proof.
  intros H.
  pose proof (H rowid_order case_twins
                (User.mk 1 (str_of_string "Bob")
                   (str_of_string "bob1@example.com")
                   (str_of_string "hash-1") 10 false)
                (str_of_string "bob") rowid_order_returns
                (or_introl eq_refl) eq_refl) as H1.
  pose proof (H rowid_order case_twins
                (User.mk 2 (str_of_string "bob")
                   (str_of_string "bob2@example.com")
                   (str_of_string "hash-2") 11 false)
                (str_of_string "bob") rowid_order_returns
                (or_intror (or_introl eq_refl)) eq_refl) as H2.
  rewrite H1 in H2; discriminate H2.
Qed.

(** On the twins, the query "bob" finds [Bob], the account stored
    first, although [bob] is stored too. *)
Example lookup_bob_on_twins :
  get_by_username rowid_order (str_of_string "bob") case_twins
  = Ok (User.mk 1 (str_of_string "Bob") (str_of_string "bob1@example.com")
          (str_of_string "hash-1") 10 false).
Proof. vm_compute; reflexivity. Qed.

(** ** The integrity constraints are invariants *)

Lemma fold_max_bound (ids : list Z) (x : Z) :
  In x ids -> x <= fold_right Z.max 0 ids.
Proof.
  induction ids as [|y ids IH]; simpl; [contradiction|].
  intros [-> | Hin]; [lia | specialize (IH Hin); lia].
Qed.

Lemma next_id_fresh (ids : list Z) : ~ In (next_id ids) ids.
Proof.
  unfold next_id; intros Hin; apply fold_max_bound in Hin; lia.
Qed.

Lemma NoDup_snoc {A : Type} (l : list A) (x : A) :
  NoDup l -> ~ In x l -> NoDup (l ++ [x]).
Proof.
  intros Hl Hx.
  eapply Permutation_NoDup; [apply Permutation_cons_append|].
  constructor; assumption.
Qed.

(** Deleting rows keeps a key of the table unique. *)
Lemma delete_keeps_key_unique {K : Type} (key : Relationship.t -> K)
    (keep : Relationship.t -> bool) (rows : list Relationship.t) :
  NoDup (map key rows) -> NoDup (map key (filter keep rows)).
Proof.
  induction rows as [|row rows IH]; simpl; intros Hkeys; [constructor|].
  apply NoDup_cons_iff in Hkeys; destruct Hkeys as [Hfresh Hkeys].
  specialize (IH Hkeys).
  destruct (keep row); simpl; [|exact IH].
  constructor; [|exact IH].
  intros Hin; apply Hfresh.
  apply in_map_iff in Hin; destruct Hin as (other & Hsame & Hother).
  apply in_map_iff; exists other; split; [exact Hsame|].
  apply filter_In in Hother; tauto.
Qed.

Lemma NoDup_map_eq {A B : Type} (f : A -> B) (l : list A) (x y : A) :
  NoDup (map f l) -> In x l -> In y l -> f x = f y -> x = y.
Proof.
  induction l as [|z l IH]; simpl; intros Hn Hx Hy Heq; [contradiction|].
  apply NoDup_cons_iff in Hn; destruct Hn as [Hz Hn].
  destruct Hx as [-> | Hx], Hy as [-> | Hy]; auto.
  - exfalso; apply Hz; rewrite Heq; apply in_map; exact Hy.
  - exfalso; apply Hz; rewrite <- Heq; apply in_map; exact Hx.
Qed.

Lemma empty_db_consistent : consistent empty_db.
Proof. repeat split; constructor. Qed.

Section Invariants.

Variable E : QueryEngine.
Variable generate_password_hash : str -> str.

Lemma create_user_consistent
    (now : Z) (username email password : str) (admin : bool)
    (d d' : Database) :
  consistent d ->
  create_user generate_password_hash now username email password admin d
  = Ok d' ->
  consistent d'.
Proof.
  intros (Hu & Hr & Hp & He); unfold create_user, User_create.
  destruct (existsb _ (users d)); [discriminate|].
  intros Hok; inversion Hok; subst d'; clear Hok.
  unfold consistent, edges_unique; simpl.
  repeat split; try assumption.
  rewrite map_app; simpl; apply NoDup_snoc; [exact Hu | apply next_id_fresh].
Qed.

Lemma follow_consistent (w : World) (q : str) :
  consistent (db w) -> consistent (db (snd (follow E w q))).
Proof.
  intros (Hu & Hr & Hp & He).
  destruct (follow_frame E w q) as (Husers & Hposts & _ & Hedges).
  unfold consistent; rewrite Husers, Hposts.
  repeat split; try assumption; [|apply Hedges; exact He].
  unfold follow.
  destruct (load_user E w); [|exact Hr].
  destruct (get_by_username E q (db w)); [|exact Hr].
  unfold Relationship_create.
  destruct (existsb _ (relationships (db w))); [exact Hr|]; simpl.
  rewrite map_app; simpl; apply NoDup_snoc; [exact Hr | apply next_id_fresh].
Qed.

Lemma post_consistent (now : Z) (w : World) (submitted : option PostForm) :
  consistent (db w) -> consistent (db (snd (post E now w submitted))).
Proof.
  intros (Hu & Hr & Hp & He); unfold post.
  destruct (load_user E w); [|repeat split; assumption].
  destruct submitted as [form|]; [|repeat split; assumption].
  destruct (validate (PostForm_errors form)); [|repeat split; assumption].
  unfold consistent, edges_unique, Post_create; simpl.
  repeat split; try assumption.
  rewrite map_app; simpl; apply NoDup_snoc; [exact Hp | apply next_id_fresh].
Qed.

(** When the edge exists, [unfollow] deletes that edge and no other. *)
Lemma unfollow_existing_edge (w : World) (a b : User.t) (q : str) :
  load_user E w = Some a ->
  get_by_username E q (db w) = Ok b ->
  consistent (db w) ->
  follow_edge (db w) (User.id a) (User.id b) ->
  exists row,
    In row (relationships (db w))
    /\ Relationship.from_user row = User.id a
    /\ Relationship.to_user row = User.id b
    /\ unfollow E w q
       = (Redirect "stream" (Some (User.username b)),
          flash (set_db w (delete_instance row (db w)))
            (str_of_string "No longer following " ++ User.username b)
            "success")
    /\ ~ follow_edge (delete_instance row (db w)) (User.id a) (User.id b)
    /\ (forall r, In r (relationships (db w)) -> r <> row ->
                  In r (relationships (delete_instance row (db w))))
    /\ consistent (delete_instance row (db w)).
Proof.
  clear generate_password_hash.
  intros Ha Hb (Hu & Hr & Hp & He) Hedge.
  unfold unfollow, Relationship_get, Relationship_select.
  rewrite Ha, Hb.
  destruct (filter _ (relationships (db w))) as [|row l] eqn:Hf.
  - exfalso; apply edge_existsb in Hedge.
    apply existsb_exists in Hedge; destruct Hedge as (r & Hin & Hr0).
    assert (Hin' : In r (filter
      (fun r0 => (Relationship.from_user r0 =? User.id a)
                 && (Relationship.to_user r0 =? User.id b))
      (relationships (db w)))) by (apply filter_In; tauto).
    rewrite Hf in Hin'; contradiction.
  - assert (Hrow : In row (filter
      (fun r0 => (Relationship.from_user r0 =? User.id a)
                 && (Relationship.to_user r0 =? User.id b))
      (relationships (db w)))) by (rewrite Hf; left; reflexivity).
    apply filter_In in Hrow; destruct Hrow as [Hrow Hpair].
    apply andb_true_iff in Hpair; rewrite !Z.eqb_eq in Hpair.
    destruct Hpair as [Hfrom Hto].
    exists row; simpl; repeat split; try assumption.
    + intros (r & Hin & Hf' & Ht'); simpl in Hin.
      apply filter_In in Hin; destruct Hin as [Hin Hne].
      assert (r = row).
      { apply (NoDup_map_eq
                 (fun r => (Relationship.from_user r, Relationship.to_user r))
                 (relationships (db w))); try assumption.
        congruence. }
      subst r; rewrite Z.eqb_refl in Hne; discriminate.
    + intros r Hin Hne; apply filter_In; split; [exact Hin|].
      apply negb_true_iff, Z.eqb_neq; intros Hid; apply Hne.
      apply (NoDup_map_eq Relationship.id (relationships (db w)));
        assumption.
    + apply delete_keeps_key_unique; exact Hr.
    + unfold edges_unique; simpl; apply delete_keeps_key_unique; exact He.
Qed.

End Invariants.

(** * Further properties of the code *)

(** ** LIKE and the validators *)

Lemma like_plain_lower (q s : str) :
  plain q -> like q s = true -> lower q = lower s.
Proof.
  revert s; induction q as [|c q IH]; intros s Hplain Hlike.
  - destruct s; [reflexivity | discriminate Hlike].
  - destruct (Hplain c (or_introl eq_refl)) as [Hpc Hus].
    assert (Hq : plain q) by (intros x Hx; apply Hplain; right; exact Hx).
    simpl in Hlike.
    apply N.eqb_neq in Hpc, Hus; rewrite Hpc in Hlike.
    destruct s as [|d s]; [discriminate Hlike|].
    rewrite Hus in Hlike; simpl in Hlike.
    apply andb_true_iff in Hlike; destruct Hlike as [Hcd Hrest].
    apply N.eqb_eq in Hcd; simpl; rewrite Hcd, (IH s Hq Hrest); reflexivity.
Qed.

(** For a query without [%] and [_], LIKE is equality up to the case of
    ASCII letters. *)
Lemma like_plain_iff (q s : str) :
  plain q -> (like q s = true <-> lower q = lower s).
Proof.
  intros Hplain; split; [apply like_plain_lower; exact Hplain | apply like_lower].
Qed.

Lemma like_percent_all (s : str) : like [percent] s = true.
Proof.
  induction s as [|c s IH]; [reflexivity|].
  rewrite like_percent; cbv iota; rewrite IH; apply orb_true_r.
Qed.

Lemma like_underscore_one (c : N) : like [underscore] [c] = true.
Proof. reflexivity. Qed.

Lemma blank_no_char (s : str) (c : N) :
  blank s -> In c s -> isspace c = true.
Proof. unfold blank; rewrite Forall_forall; auto. Qed.

(** [DataRequired] accepts a field exactly when its data holds a
    character that is not white space. *)
Lemma DataRequired_iff (data : str) :
  DataRequired data = true <-> exists c, In c data /\ isspace c = false.
Proof.
  destruct (strip_trimmed data) as ((l & r & Hsplit & Hl & Hr) & Hhead & _).
  split.
  - unfold DataRequired; intros Hreq.
    apply andb_true_iff in Hreq; destruct Hreq as [_ Hreq].
    destruct (strip data) as [|c t] eqn:Hs; [discriminate Hreq|].
    exists c; split; [|apply (Hhead c t eq_refl)].
    rewrite Hsplit; apply in_or_app; right; left; reflexivity.
  - intros (c & Hin & Hc).
    apply strip_nonempty_required; intros Hempty.
    rewrite Hempty in Hsplit; simpl in Hsplit; rewrite Hsplit in Hin.
    apply in_app_or in Hin; destruct Hin as [Hin | Hin];
      [apply (blank_no_char _ _ Hl) in Hin | apply (blank_no_char _ _ Hr) in Hin];
      congruence.
Qed.

Lemma after_word_run_split (s : str) :
  exists w, s = w ++ after_word_run s
            /\ Forall (fun c => is_word c = true) w.
Proof.
  induction s as [|c s (w & Hs & Hw)]; simpl.
  - exists []; split; [reflexivity | constructor].
  - destruct (is_word c) eqn:Hc.
    + exists (c :: w); split; [simpl; f_equal; exact Hs|].
      constructor; assumption.
    + exists []; split; [reflexivity | constructor].
Qed.

Lemma after_word_run_app (w t : str) :
  Forall (fun c => is_word c = true) w ->
  after_word_run (w ++ t) = after_word_run t.
Proof.
  induction 1 as [|c w Hc _ IH]; simpl; [reflexivity|].
  rewrite Hc; exact IH.
Qed.

(** X3. The username validator [Regexp(r'^[a-zA-Z0-9_]+$')] accepts
    exactly the non-empty words over letters, digits and the underscore,
    and those words followed by one newline. *)
Theorem Regexp_username_iff (s : str) :
  Regexp_username s = true
  <-> exists w, w <> []
                /\ Forall (fun c => is_word c = true) w
                /\ (s = w \/ s = w ++ [newline]).
Proof.
  split.
  - unfold Regexp_username.
    destruct s as [|c s']; [discriminate|].
    intros H; apply andb_true_iff in H; destruct H as [Hc Hrest].
    destruct (after_word_run_split (c :: s')) as (w & Hs & Hw).
    assert (Hne : w <> []).
    { intros ->; simpl in Hs.
      simpl in Hrest; rewrite Hc in Hrest.
      simpl in Hs; rewrite Hc in Hs.
      apply (f_equal (@List.length N)) in Hs.
      destruct (after_word_run_split s') as (w' & Hs' & _).
      rewrite Hs' in Hs at 1; simpl in Hs; rewrite length_app in Hs; lia. }
    exists w; split; [exact Hne | split; [exact Hw|]].
    destruct (after_word_run (c :: s')) as [|d [|e t]] eqn:Hafter.
    + left; rewrite app_nil_r in Hs; exact Hs.
    + right; apply N.eqb_eq in Hrest; subst d; exact Hs.
    + discriminate Hrest.
  - intros (w & Hne & Hw & Hs).
    destruct w as [|c w]; [contradiction|].
    assert (Hc : is_word c = true) by (inversion Hw; assumption).
    assert (Hend : after_word_run (c :: w) = []).
    { rewrite <- (app_nil_r (c :: w)); apply (after_word_run_app _ [] Hw). }
    assert (Hnl : after_word_run ((c :: w) ++ [newline]) = [newline]).
    { apply (after_word_run_app _ [newline] Hw). }
    unfold Regexp_username.
    destruct Hs as [-> | ->].
    + rewrite Hend, Hc; reflexivity.
    + change ((c :: w) ++ [newline]) with (c :: (w ++ [newline])) in Hnl |- *.
      rewrite Hnl, Hc; reflexivity.
Qed.

(** The newline of the edge case: "bob" followed by a newline passes. *)
Example Regexp_username_newline :
  Regexp_username (str_of_string "bob" ++ [newline]) = true
  /\ Regexp_username (str_of_string "bob smith") = false
  /\ Regexp_username [] = false.
Proof. repeat split. Qed.

(** ** Followers, the public stream and single posts *)

Section Reading.

Variable E : QueryEngine.
Hypothesis HE : returns_selected_rows E.

Lemma engine_singleton {A : Type} (tables : Database) (x : A) :
  E A tables [x] = [x].
Proof.
  pose proof (HE A tables [x]) as Hp.
  apply Permutation_length_1_inv; exact Hp.
Qed.

Lemma followers_In (self : User.t) (d : Database) (u : User.t) :
  In u (followers E self d) <->
  In u (users d) /\ follow_edge d (User.id u) (User.id self).
Proof.
  unfold followers, follow_edge.
  rewrite (engine_In E HE), in_map_iff; split.
  - intros ([u' r] & Hfst & Hin); simpl in Hfst; subst u'.
    apply filter_In in Hin; destruct Hin as [Hin Hto]; simpl in Hto.
    apply in_flat_map in Hin; destruct Hin as (u0 & Hu0 & Hin).
    apply in_map_iff in Hin; destruct Hin as (r0 & Heq & Hr0).
    inversion Heq; subst u0 r0.
    apply filter_In in Hr0; destruct Hr0 as [Hr Hfrom].
    apply Z.eqb_eq in Hfrom, Hto.
    split; [exact Hu0 | exists r; tauto].
  - intros (Hu & r & Hr & Hfrom & Hto).
    exists (u, r); split; [reflexivity|].
    apply filter_In; split; [|simpl; apply Z.eqb_eq; exact Hto].
    apply in_flat_map; exists u; split; [exact Hu|].
    apply in_map, filter_In; split; [exact Hr | apply Z.eqb_eq; exact Hfrom].
Qed.

(** X4. [followers] and [following] are converse: among stored
    accounts, [u] is a follower of [v] exactly when [v] is among the
    accounts [u] follows, and that is when a relationship row from [u]
    to [v] exists. *)
Theorem followers_following_converse (d : Database) (u v : User.t) :
  In u (users d) -> In v (users d) ->
  (In u (followers E v d) <-> In v (following E u d))
  /\ (In u (followers E v d) <-> follow_edge d (User.id u) (User.id v)).
Proof.
  intros Hu Hv.
  rewrite followers_In, (following_In E HE); tauto.
Qed.

(** X5. The page of another account, [/stream/<username>], shows
    posts of that account only: the first 100 of an arrangement of
    exactly its posts, so all of them when there are at most 100, and
    100 of them otherwise. *)
Theorem public_stream_of_owner
    (w : World) (viewer user : User.t) (username : str) :
  load_user E w = Some viewer ->
  username <> [] ->
  username <> User.username viewer ->
  get_by_username E username (db w) = Ok user ->
  exists s full,
    stream E w (Some username)
    = (RenderStream "user_stream.html" s (Some user), w)
    /\ Permutation
         (filter (fun p => Post.user p =? User.id user) (posts (db w))) full
    /\ s = firstn 100 full
    /\ (forall p, In p s ->
                  In p (posts (db w)) /\ Post.user p = User.id user)
    /\ ((List.length
           (filter (fun p => (Post.user p =? User.id user)%Z)
              (posts (db w)))
         <= 100)%nat ->
        forall p, In p (posts (db w)) -> Post.user p = User.id user ->
                  In p s)
    /\ List.length s
       = Nat.min 100
           (List.length
              (filter (fun p => Post.user p =? User.id user)
                 (posts (db w)))).
Proof.
  intros Hviewer Hne Hother Hget.
  exists (limit 100 (get_posts E user (db w))), (get_posts E user (db w)).
  pose proof (HE Post.t (post_table (db w))
                (filter (fun p => Post.user p =? User.id user)
                   (posts (db w)))) as Hp.
  split.
  - unfold stream; rewrite Hviewer.
    destruct username as [|c t]; [contradiction|]; simpl truthy.
    destruct (str_eqb (c :: t) (User.username viewer)) eqn:Heq.
    + apply str_eqb_eq in Heq; contradiction.
    + simpl; rewrite Hget; reflexivity.
  - unfold get_posts, Post_select, limit.
    split; [exact Hp|].
    split; [reflexivity|].
    split; [|split].
    + intros p Hin; apply In_firstn in Hin.
      apply (Permutation_in _ (Permutation_sym Hp)), filter_In in Hin.
      rewrite Z.eqb_eq in Hin; exact Hin.
    + intros Hlen p Hin Hown.
      rewrite firstn_all2; [|rewrite <- (Permutation_length Hp); exact Hlen].
      apply (Permutation_in _ Hp), filter_In; split; [exact Hin|].
      apply Z.eqb_eq; exact Hown.
    + rewrite length_firstn, (Permutation_length Hp); reflexivity.
Qed.

Lemma filter_none {A : Type} (f : A -> bool) (l : list A) :
  (forall x, In x l -> f x = false) -> filter f l = [].
Proof.
  induction l as [|x l IH]; simpl; intros H; [reflexivity|].
  rewrite (H x (or_introl eq_refl)); apply IH; intros y Hy; apply H; right; exact Hy.
Qed.

Lemma filter_key_unique {A : Type} (key : A -> Z) (l : list A) (x : A) :
  NoDup (map key l) -> In x l ->
  filter (fun y => key y =? key x) l = [x].
Proof.
  induction l as [|y l IH]; simpl; intros Hn Hin; [contradiction|].
  apply NoDup_cons_iff in Hn; destruct Hn as [Hy Hn].
  destruct Hin as [-> | Hin].
  - rewrite Z.eqb_refl; f_equal.
    apply filter_none; intros z Hz; apply Z.eqb_neq; intros Heq.
    apply Hy; rewrite <- Heq; apply in_map; exact Hz.
  - destruct (key y =? key x) eqn:Heq; [|apply IH; assumption].
    apply Z.eqb_eq in Heq; exfalso; apply Hy; rewrite Heq.
    apply in_map; exact Hin.
Qed.


(** X7. A message posted through [/new_post] is then served by
    [/post/<id>] under the id it was given, alone and with its stripped
    content. *)
Theorem post_then_view_post
    (now : Z) (w : World) (owner : User.t) (form : PostForm) :
  load_user E w = Some owner ->
  post_csrf_ok form = true ->
  strip (post_content form) <> [] ->
  let w' := snd (post E now w (Some form)) in
  let id := next_id (map Post.id (posts (db w))) in
  view_post E w' id
  = (RenderStream "stream.html"
       [Post.mk id now (User.id owner) (strip (post_content form))] None,
     w').
Proof.
  intros Howner Hcsrf Hne.
  assert (Hpost :
    post E now w (Some form)
    = (Redirect "index" None,
       flash
         (set_db w
            (Post_create now owner (strip (post_content form)) (db w)))
         (str_of_string "Message posted successfully") "success")).
  { unfold post, PostForm_errors.
    rewrite Howner, Hcsrf, (strip_nonempty_required _ Hne); reflexivity. }
  cbv zeta; rewrite Hpost; unfold view_post, Post_select; simpl.
  rewrite filter_app; simpl; rewrite Z.eqb_refl.
  rewrite filter_none, app_nil_l, engine_singleton; [reflexivity|].
  intros p Hin; apply Z.eqb_neq; intros Hid.
  apply (next_id_fresh (map Post.id (posts (db w)))).
  rewrite <- Hid; apply in_map; exact Hin.
Qed.

End Reading.

(** ** Sessions and registration *)

Section Sessions.

Variable E : QueryEngine.
Hypothesis HE : returns_selected_rows E.
Variable generate_password_hash : str -> str.
Variable check_password_hash : str -> str -> bool.
Variable valid_email : str -> bool.

Lemma select_In {A : Type} (tables : Database) (f : A -> bool) (l : list A)
    (x : A) :
  get (E A tables (filter f l)) = Ok x -> In x l /\ f x = true.
Proof.
  unfold get.
  destruct (E A tables (filter f l)) as [|y t] eqn:Hsel; [discriminate|].
  intros Hok; inversion Hok; subst y.
  apply filter_In, (engine_In E HE tables); rewrite Hsel; left; reflexivity.
Qed.

Lemma load_user_In (w : World) (u : User.t) :
  load_user E w = Some u ->
  In u (users (db w)) /\ session_user_id w = Some (User.id u).
Proof.
  unfold load_user, User_select.
  destruct (session_user_id w) as [userid|]; [|discriminate].
  destruct (get _) as [u'|e] eqn:Hget; [|discriminate].
  intros Hsome; inversion Hsome; subst u'.
  apply select_In in Hget; destruct Hget as [Hin Hid].
  apply Z.eqb_eq in Hid; subst userid; auto.
Qed.

Lemma load_user_session (d : Database) (fl : list Flash) (u : User.t) :
  NoDup (map User.id (users d)) -> In u (users d) ->
  load_user E (mkWorld d (Some (User.id u)) fl) = Some u.
Proof.
  intros Hn Hin; unfold load_user, User_select; simpl.
  rewrite (filter_key_unique User.id _ u Hn Hin), (engine_singleton E HE).
  reflexivity.
Qed.

(** X8. A login with the right password binds the session to the
    account found: the next request is made as that account, whatever
    the session held before.  A logout from there leaves the next
    request anonymous.  Neither changes the database. *)
Theorem login_then_logout
    (w : World) (form : LoginForm) (account : User.t) :
  NoDup (map User.id (users (db w))) ->
  validate (LoginForm_errors valid_email form) = true ->
  get (User_select E (fun u => str_eqb (User.email u) (login_email form))
         (db w)) = Ok account ->
  check_password_hash (User.password account) (login_password form) = true ->
  let w1 := snd (login E check_password_hash valid_email w (Some form)) in
  let w2 := snd (logout E w1) in
  fst (login E check_password_hash valid_email w (Some form))
  = Redirect "index" None
  /\ load_user E w1 = Some account
  /\ fst (logout E w1) = Redirect "index" None
  /\ load_user E w2 = None
  /\ db w1 = db w /\ db w2 = db w.
Proof.
  intros Hn Hvalid Hget Hcheck.
  pose proof Hget as Hin; apply select_In in Hin; destruct Hin as [Hin _].
  assert (Hlogin :
    login E check_password_hash valid_email w (Some form)
    = (Redirect "index" None,
       mkWorld (db w) (Some (User.id account))
         (flashes w ++
          [(str_of_string "Login successful!", "success"%string)])))
    by (unfold login; rewrite Hvalid, Hget, Hcheck; reflexivity).
  assert (Hload :
    load_user E
      (mkWorld (db w) (Some (User.id account))
         (flashes w ++ [(str_of_string "Login successful!", "success"%string)]))
    = Some account) by (apply load_user_session; assumption).
  cbv zeta; rewrite Hlogin; cbn [fst snd].
  unfold logout; rewrite Hload; cbn [fst snd].
  repeat split; exact Hload.
Qed.

Lemma exists_false {A : Type} (tables : Database) (f : A -> bool)
    (l : list A) :
  exists_ (E A tables (filter f l)) = false <->
  forall x, In x l -> f x = false.
Proof.
  pose proof (HE A tables (filter f l)) as Hp; split.
  - intros Hex x Hin.
    destruct (f x) eqn:Hf; [exfalso|reflexivity].
    assert (Hx : In x (E A tables (filter f l)))
      by (apply (Permutation_in _ Hp), filter_In; tauto).
    destruct (E A tables (filter f l)); [contradiction | discriminate Hex].
  - intros Hnone.
    rewrite (filter_none _ _ Hnone) in Hp.
    apply Permutation_nil in Hp; rewrite (filter_none _ _ Hnone), Hp.
    reflexivity.
Qed.

Lemma not_exists_available (d : Database) (username email : str) :
  name_exists E d username = false ->
  email_exists E d email = false ->
  available d username email.
Proof.
  unfold name_exists, email_exists, User_select; intros Hname Hemail u Hin.
  rewrite exists_false in Hname, Hemail.
  specialize (Hname u Hin); specialize (Hemail u Hin); simpl in *.
  split; intros Heq; apply str_eqb_eq in Heq; congruence.
Qed.

(** What a form without errors has passed. *)
Lemma RegisterForm_valid (d : Database) (form : RegisterForm) :
  RegisterForm_errors E valid_email d form = [] ->
  reg_csrf_ok form = true
  /\ DataRequired (reg_username form) = true
  /\ Regexp_username (reg_username form) = true
  /\ name_exists E d (reg_username form) = false
  /\ DataRequired (reg_email form) = true
  /\ valid_email (reg_email form) = true
  /\ email_exists E d (reg_email form) = false
  /\ DataRequired (reg_password form) = true
  /\ (2 <= len (reg_password form))%nat
  /\ reg_password form = reg_password2 form.
Proof.
  unfold RegisterForm_errors; intros Herr.
  repeat (apply app_eq_nil in Herr; destruct Herr as [? Herr]).
  destruct (reg_csrf_ok form); [|discriminate].
  destruct (DataRequired (reg_username form)); [|discriminate].
  destruct (DataRequired (reg_email form)); [|discriminate].
  destruct (DataRequired (reg_password form)); [|discriminate].
  repeat match goal with
         | H : _ ++ _ = [] |- _ => apply app_eq_nil in H; destruct H
         end.
  destruct (Regexp_username (reg_username form)); [|discriminate].
  destruct (name_exists E d (reg_username form)); [discriminate|].
  destruct (valid_email (reg_email form)); [|discriminate].
  destruct (email_exists E d (reg_email form)); [discriminate|].
  destruct (2 <=? len (reg_password form))%nat eqn:Hlen; [|discriminate].
  destruct (str_eqb (reg_password form) (reg_password2 form)) eqn:Hpw;
    [|discriminate].
  apply Nat.leb_le in Hlen; apply str_eqb_eq in Hpw.
  repeat split; assumption.
Qed.

Lemma register_valid_form (now : Z) (w : World) (form : RegisterForm) :
  RegisterForm_errors E valid_email (db w) form = [] ->
  register E generate_password_hash valid_email now w (Some form)
  = (Answer (Redirect "index" None),
     mkWorld
       (mkDatabase
          (users (db w) ++
           [User.mk (next_id (map User.id (users (db w))))
              (reg_username form) (reg_email form)
              (generate_password_hash (reg_password form)) now false])
          (relationships (db w)) (posts (db w)))
       (session_user_id w)
       (flashes w ++
        [(str_of_string "You registered successfully.", "success"%string)])).
Proof.
  intros Herr; unfold register; rewrite Herr.
  apply RegisterForm_valid in Herr.
  destruct Herr as (_ & _ & _ & Hname & _ & _ & Hemail & _).
  pose proof (not_exists_available _ _ _ Hname Hemail) as Hav.
  apply (taken_existsb generate_password_hash) in Hav.
  unfold create_user, User_create; simpl; rewrite Hav; reflexivity.
Qed.

(** X9. [register] never lets the [ValueError] of [create_user] escape:
    the validators [name_exists] and [email_exists] have refused every
    form whose username or email the unique indexes would refuse.  A
    submitted form either has errors, and then the state is unchanged,
    or creates one account that is not an administrator and holds the
    hash of the password. *)
Theorem register_never_raises
    (now : Z) (w : World) (form : RegisterForm) :
  (RegisterForm_errors E valid_email (db w) form <> []
   /\ register E generate_password_hash valid_email now w (Some form)
      = (RenderRegister (RegisterForm_errors E valid_email (db w) form), w))
  \/ (RegisterForm_errors E valid_email (db w) form = []
      /\ register E generate_password_hash valid_email now w (Some form)
         = (Answer (Redirect "index" None),
            mkWorld
              (mkDatabase
                 (users (db w) ++
                  [User.mk (next_id (map User.id (users (db w))))
                     (reg_username form) (reg_email form)
                     (generate_password_hash (reg_password form)) now false])
                 (relationships (db w)) (posts (db w)))
              (session_user_id w)
              (flashes w ++
               [(str_of_string "You registered successfully.",
                 "success"%string)]))).
Proof.
  destruct (RegisterForm_errors E valid_email (db w) form) as [|e l] eqn:Herr.
  - right; split; [reflexivity | apply register_valid_form; exact Herr].
  - left; split; [discriminate|].
    unfold register; rewrite Herr; reflexivity.
Qed.

(** X10. A username or an email that a stored account holds is always
    an error of the form: such a registration changes nothing. *)
Theorem register_refuses_taken
    (now : Z) (w : World) (form : RegisterForm) (holder : User.t) :
  In holder (users (db w)) ->
  User.username holder = reg_username form
  \/ User.email holder = reg_email form ->
  exists errors,
    errors <> []
    /\ register E generate_password_hash valid_email now w (Some form)
       = (RenderRegister errors, w).
Proof.
  intros Hin Hheld.
  destruct (RegisterForm_errors E valid_email (db w) form) as [|e l] eqn:Herr.
  - exfalso; apply RegisterForm_valid in Herr.
    destruct Herr as (_ & _ & _ & Hname & _ & _ & Hemail & _).
    destruct (not_exists_available _ _ _ Hname Hemail holder Hin) as [Hn He].
    destruct Hheld; contradiction.
  - exists (e :: l); split; [discriminate|].
    unfold register; rewrite Herr; reflexivity.
Qed.

Hypothesis Hbcrypt :
  forall p, check_password_hash (generate_password_hash p) p = true.

(** X11. After a registration, a login with the same email and password
    succeeds and binds the session to the new account, provided the
    hash check accepts the hash of the password it was made from. *)
Theorem register_then_login
    (now : Z) (w : World) (form : RegisterForm) :
  RegisterForm_errors E valid_email (db w) form = [] ->
  let w1 :=
    snd (register E generate_password_hash valid_email now w (Some form)) in
  let credentials :=
    mkLoginForm true (reg_email form) (reg_password form) in
  let r := login E check_password_hash valid_email w1 (Some credentials) in
  fst r = Redirect "index" None
  /\ session_user_id (snd r)
     = Some (next_id (map User.id (users (db w))))
  /\ db (snd r) = db w1.
Proof.
  intros Herr; cbv zeta.
  rewrite (register_valid_form now w form Herr); simpl snd.
  apply RegisterForm_valid in Herr.
  destruct Herr as (_ & _ & _ & _ & Hreq_e & Hvalid_e & Hemail & Hreq_p & _).
  unfold email_exists, User_select in Hemail; rewrite exists_false in Hemail.
  unfold login, LoginForm_errors; simpl.
  rewrite Hreq_e, Hvalid_e, Hreq_p; simpl.
  unfold User_select; simpl.
  rewrite filter_app, (filter_none _ _ Hemail); simpl.
  rewrite str_eqb_refl, (engine_singleton E HE); simpl.
  rewrite Hbcrypt; simpl; repeat split.
Qed.

End Sessions.

(** ** Following and unfollowing *)

Section Edges.

Variable E : QueryEngine.
Hypothesis HE : returns_selected_rows E.

Lemma filter_fresh_id (l : list Relationship.t) :
  filter
    (fun r => negb (Relationship.id r =? next_id (map Relationship.id l))) l
  = l.
Proof.
  assert (H : forall k, ~ In k (map Relationship.id l) ->
    filter (fun r => negb (Relationship.id r =? k)) l = l).
  { intros k; induction l as [|r l IH]; simpl; intros Hk; [reflexivity|].
    destruct (Relationship.id r =? k) eqn:Heq.
    - apply Z.eqb_eq in Heq; exfalso; apply Hk; left; exact Heq.
    - simpl; f_equal; apply IH; intros Hin; apply Hk; right; exact Hin. }
  apply H, next_id_fresh.
Qed.

Lemma no_edge_filter (d : Database) (a b : Z) :
  ~ follow_edge d a b ->
  filter
    (fun r => (Relationship.from_user r =? a) && (Relationship.to_user r =? b))
    (relationships d) = [].
Proof.
  intros Hno; apply filter_none; intros r Hin.
  destruct ((Relationship.from_user r =? a) && (Relationship.to_user r =? b))
    eqn:Hr; [exfalso|reflexivity].
  apply andb_true_iff in Hr; rewrite !Z.eqb_eq in Hr.
  apply Hno; exists r; tauto.
Qed.

(** X12. Following an account that was not followed and unfollowing it
    again restores the database: the row added is the row deleted. *)
Theorem follow_then_unfollow (w : World) (a b : User.t) (q : str) :
  load_user E w = Some a ->
  get_by_username E q (db w) = Ok b ->
  ~ follow_edge (db w) (User.id a) (User.id b) ->
  let w1 := snd (follow E w q) in
  fst (unfollow E w1 q) = Redirect "stream" (Some (User.username b))
  /\ db (snd (unfollow E w1 q)) = db w.
Proof.
  intros Ha Hb Hno; cbv zeta.
  rewrite (follow_new_edge E w a b q Ha Hb Hno); cbn [snd].
  set (row := Relationship.mk
                (next_id (map Relationship.id (relationships (db w))))
                (User.id a) (User.id b)).
  match goal with
  | |- context [unfollow E ?w' q] =>
      assert (Ha1 : load_user E w' = Some a)
        by (rewrite <- Ha; apply load_user_frame; reflexivity);
      assert (Hb1 : get_by_username E q (db w') = Ok b)
        by (rewrite <- Hb; apply get_by_username_frame; reflexivity)
  end.
  unfold unfollow; rewrite Ha1, Hb1.
  unfold Relationship_get, Relationship_select; cbn [db flash set_db relationships].
  rewrite filter_app, (no_edge_filter _ _ _ Hno); simpl filter.
  rewrite !Z.eqb_refl; simpl.
  unfold delete_instance; simpl.
  rewrite filter_app; simpl; rewrite Z.eqb_refl; simpl.
  rewrite filter_fresh_id, app_nil_r.
  split; [reflexivity | destruct (db w); reflexivity].
Qed.

(** X13. An account may follow itself: the request is accepted like any
    other and adds the edge, and [get_stream] of the account selects
    the same posts as before, in an order that is the engine's. *)
Theorem self_follow_harmless (w : World) (a : User.t) (q : str) :
  load_user E w = Some a ->
  get_by_username E q (db w) = Ok a ->
  ~ follow_edge (db w) (User.id a) (User.id a) ->
  let w1 := snd (follow E w q) in
  fst (follow E w q) = Redirect "stream" (Some (User.username a))
  /\ follow_edge (db w1) (User.id a) (User.id a)
  /\ Permutation (get_stream E a (db w)) (get_stream E a (db w1)).
Proof.
  intros Ha Hb Hno; cbv zeta.
  pose proof (follow_establishes_edge E w a a q Ha Hb) as Hedge.
  destruct (follow_frame E w q) as (Husers & Hposts & _ & _).
  pose proof (get_stream_perm E HE a (db (snd (follow E w q)))) as Hafter.
  rewrite (follow_new_edge E w a a q Ha Hb Hno) in *; cbn [fst snd] in *.
  split; [reflexivity | split; [exact Hedge|]].
  etransitivity; [symmetry; apply (get_stream_perm E HE a (db w))|].
  etransitivity; [|exact Hafter].
  rewrite Hposts.
  erewrite filter_ext; [apply Permutation_refl|].
  intros p.
  apply eq_true_iff_eq; rewrite !(in_feed_ofb_spec); unfold in_feed_of.
  rewrite Husers; split.
  - intros [Hown | (f & Hf & (r & Hr & Hfrom & Hto) & Hown)]; [left; exact Hown|].
    right; exists f; split; [exact Hf | split; [|exact Hown]].
    exists r; split; [|tauto].
    cbn [db flash set_db relationships]; apply in_or_app; left; exact Hr.
  - intros [Hown | (f & Hf & (r & Hr & Hfrom & Hto) & Hown)]; [left; exact Hown|].
    cbn [db flash set_db relationships] in Hr.
    apply in_app_or in Hr; destruct Hr as [Hr | [<- | []]].
    + right; exists f; split; [exact Hf | split; [exists r; tauto | exact Hown]].
    + simpl in Hto; left; congruence.
Qed.

(** X14. Unfollowing an account that is followed deletes the one row of
    that edge and keeps every other row; the integrity constraints
    still hold and a message is flashed. *)
Theorem unfollow_removes_the_edge (w : World) (a b : User.t) (q : str) :
  load_user E w = Some a ->
  get_by_username E q (db w) = Ok b ->
  consistent (db w) ->
  follow_edge (db w) (User.id a) (User.id b) ->
  let w1 := snd (unfollow E w q) in
  fst (unfollow E w q) = Redirect "stream" (Some (User.username b))
  /\ ~ follow_edge (db w1) (User.id a) (User.id b)
  /\ (forall x y, (x, y) <> (User.id a, User.id b) ->
                  (follow_edge (db w1) x y <-> follow_edge (db w) x y))
  /\ users (db w1) = users (db w)
  /\ posts (db w1) = posts (db w)
  /\ consistent (db w1).
Proof.
  intros Ha Hb Hc Hedge; cbv zeta.
  destruct (unfollow_existing_edge E w a b q Ha Hb Hc Hedge)
    as (row & Hin & Hfrom & Hto & Heq & Hgone & Hkeep & Hcons).
  rewrite Heq; cbn [fst snd db flash set_db].
  split; [reflexivity | split; [exact Hgone | split; [|auto]]].
  intros x y Hxy; split.
  - intros (r & Hr & Hrf & Hrt); simpl in Hr.
    apply filter_In in Hr; exists r; tauto.
  - intros (r & Hr & Hrf & Hrt).
    exists r; split; [|tauto].
    apply Hkeep; [exact Hr|].
    intros ->; apply Hxy; congruence.
Qed.

End Edges.

(** ** What a request can do to the database *)

Lemma rstrip_fixed (s : str) :
  (forall t c, s = t ++ [c] -> isspace c = false) -> rstrip s = s.
Proof.
  intros Hlast; unfold rstrip.
  rewrite lstrip_fixed; [apply rev_involutive|].
  intros c t Hrev.
  apply (Hlast (rev t) c).
  rewrite <- (rev_involutive s), Hrev; reflexivity.
Qed.

Lemma strip_idempotent (s : str) : strip (strip s) = strip s.
Proof.
  destruct (strip_trimmed s) as (_ & Hhead & Hlast).
  unfold strip at 1.
  rewrite (lstrip_fixed _ Hhead); apply rstrip_fixed; exact Hlast.
Qed.

Section Requests.

Variable E : QueryEngine.
Hypothesis HE : returns_selected_rows E.
Variable generate_password_hash : str -> str.
Variable check_password_hash : str -> str -> bool.
Variable valid_email : str -> bool.

Lemma follow_step (w : World) (q : str) :
  transition (db w) (db (snd (follow E w q))).
Proof.
  unfold follow.
  destruct (load_user E w) as [a|] eqn:Ha; [|constructor].
  destruct (get_by_username E q (db w)) as [b|e] eqn:Hb; [|constructor].
  unfold Relationship_create.
  destruct (existsb _ (relationships (db w))) eqn:Hex; [constructor|].
  cbn [snd db flash set_db].
  apply EdgeAdded.
  - apply (load_user_In E HE w a Ha).
  - apply (get_by_username_In E HE q (db w) b Hb).
  - intros Hedge; apply edge_existsb in Hedge; congruence.
Qed.

Lemma unfollow_step (w : World) (q : str) :
  transition (db w) (db (snd (unfollow E w q))).
Proof.
  unfold unfollow.
  destruct (load_user E w) as [a|]; [|constructor].
  destruct (get_by_username E q (db w)) as [b|e]; [|constructor].
  unfold Relationship_get, Relationship_select, get.
  destruct (filter _ (relationships (db w))) as [|row l] eqn:Hf; [constructor|].
  cbn [snd db flash set_db].
  apply RowDeleted.
  assert (Hin : In row (filter
    (fun r => (Relationship.from_user r =? User.id a)
              && (Relationship.to_user r =? User.id b))
    (relationships (db w)))) by (rewrite Hf; left; reflexivity).
  apply filter_In in Hin; tauto.
Qed.

Lemma post_step (now : Z) (w : World) (submitted : option PostForm) :
  transition (db w) (db (snd (post E now w submitted))).
Proof.
  unfold post.
  destruct (load_user E w) as [owner|] eqn:Howner; [|constructor].
  destruct submitted as [form|]; [|constructor].
  unfold PostForm_errors.
  destruct (post_csrf_ok form); [|constructor].
  destruct (DataRequired (post_content form)) eqn:Hreq; [|constructor].
  cbn [app validate snd db flash set_db].
  apply PostAppended.
  - apply (load_user_In E HE w owner Howner).
  - unfold DataRequired in Hreq.
    apply andb_true_iff in Hreq; destruct Hreq as [_ Hreq].
    intros Hempty; rewrite Hempty in Hreq; discriminate Hreq.
  - apply strip_idempotent.
Qed.

Lemma register_step (now : Z) (w : World) (submitted : option RegisterForm) :
  transition (db w)
    (db (snd (register E generate_password_hash valid_email now w submitted))).
Proof.
  destruct submitted as [form|]; [|constructor].
  destruct (RegisterForm_errors E valid_email (db w) form) as [|e l] eqn:Herr.
  - rewrite (register_valid_form E HE generate_password_hash valid_email
               now w form Herr); cbn [snd db].
    apply AccountCreated.
    apply (RegisterForm_valid E valid_email) in Herr.
    destruct Herr as (_ & _ & _ & Hname & _ & _ & Hemail & _).
    apply (not_exists_available E HE); assumption.
  - unfold register; rewrite Herr; constructor.
Qed.

Lemma handle_step (w : World) (request : Request) :
  transition (db w)
    (db (handle E generate_password_hash check_password_hash valid_email
           w request)).
Proof.
  destruct request as [|username|post_id|q|q| |now submitted|submitted
                       |now submitted]; unfold handle.
  - constructor.
  - unfold stream.
    destruct (load_user E w); [|constructor].
    destruct username as [name|]; [|constructor].
    destruct (_ && _); [|constructor].
    destruct (get_by_username E name (db w)); constructor.
  - unfold view_post; destruct (_ =? _)%nat; constructor.
  - apply follow_step.
  - apply unfollow_step.
  - unfold logout; destruct (load_user E w); constructor.
  - apply post_step.
  - unfold login.
    destruct submitted as [form|]; [|constructor].
    destruct (validate _); [|constructor].
    destruct (get _) as [u|e]; [|constructor].
    destruct (check_password_hash _ _); constructor.
  - apply register_step.
Qed.

(** X15. Whatever requests are served, the database changes only by
    these steps: an account that is not an administrator is appended
    under a free username and email, an edge between two stored
    accounts that was not there is appended, a relationship row is
    deleted, or a non-empty stripped post of a stored account is
    appended. *)
Theorem serve_transitions (requests : list (option Z * Request)) (w : World) :
  transitions (db w)
    (db (serve E generate_password_hash check_password_hash valid_email
           w requests)).
Proof.
  revert w; induction requests as [|[session request] rest IH]; intros w.
  - constructor.
  - simpl serve.
    eapply OneMore; [|apply IH].
    apply (handle_step (mkWorld (db w) session (flashes w)) request).
Qed.

Lemma transition_consistent (d d' : Database) :
  transition d d' -> consistent d -> consistent d'.
Proof.
  intros Hstep (Hu & Hr & Hp & He).
  destruct Hstep as [|now username email hash _|a b _ _ Hno|row _
                     |now owner content _ _ _];
    unfold consistent, edges_unique in *; simpl.
  - tauto.
  - repeat split; try assumption.
    rewrite map_app; apply NoDup_snoc; [exact Hu | apply next_id_fresh].
  - repeat split; try assumption.
    + rewrite map_app; apply NoDup_snoc; [exact Hr | apply next_id_fresh].
    + apply (edges_unique_add d _ _ _ He Hno).
  - repeat split; try assumption; apply delete_keeps_key_unique; assumption.
  - repeat split; try assumption.
    rewrite map_app; apply NoDup_snoc; [exact Hp | apply next_id_fresh].
Qed.

Lemma transition_references (d d' : Database) :
  transition d d' -> references_resolve d -> references_resolve d'.
Proof.
  intros Hstep (Hrel & Hpost).
  destruct Hstep as [|now username email hash _|a b Ha Hb _|row _
                     |now owner content Howner _ _];
    unfold references_resolve; simpl.
  - tauto.
  - split; [intros r Hr; destruct (Hrel r Hr) | intros p Hp0];
      rewrite map_app; [split|]; apply in_or_app; left; auto.
  - split; [|exact Hpost].
    intros r Hr; apply in_app_or in Hr; destruct Hr as [Hr | [<- | []]];
      [apply Hrel; exact Hr | simpl; split; apply in_map; assumption].
  - split; [|exact Hpost].
    intros r Hr; apply filter_In in Hr; apply Hrel; tauto.
  - split; [exact Hrel|].
    intros p Hp0; apply in_app_or in Hp0; destruct Hp0 as [Hp0 | [<- | []]];
      [apply Hpost; exact Hp0 | simpl; apply in_map; exact Howner].
Qed.

Lemma transition_contents (d d' : Database) :
  transition d d' -> contents_stripped d -> contents_stripped d'.
Proof.
  intros Hstep Hc.
  destruct Hstep as [|now username email hash _|a b _ _ _|row _
                     |now owner content _ Hne Hstrip];
    unfold contents_stripped; simpl; try exact Hc.
  intros p Hp; apply in_app_or in Hp; destruct Hp as [Hp | [<- | []]];
    [apply Hc; exact Hp | simpl; split; assumption].
Qed.

Lemma transition_grows (d d' : Database) :
  transition d d' ->
  (exists new, users d' = users d ++ new)
  /\ (exists new, posts d' = posts d ++ new)
  /\ filter User.is_admin (users d') = filter User.is_admin (users d).
Proof.
  intros Hstep.
  destruct Hstep as [|now username email hash _|a b _ _ _|row _
                     |now owner content _ _ _]; simpl.
  - repeat split; try (exists []; rewrite app_nil_r; reflexivity).
  - split; [eexists; reflexivity|].
    split; [exists []; rewrite app_nil_r; reflexivity|].
    rewrite filter_app; simpl; apply app_nil_r.
  - repeat split; try (exists []; rewrite app_nil_r; reflexivity).
  - repeat split; try (exists []; rewrite app_nil_r; reflexivity).
  - split; [exists []; rewrite app_nil_r; reflexivity|].
    split; [eexists; reflexivity | reflexivity].
Qed.

(** X16. The integrity constraints survive every run of requests:
    primary keys stay unique in the three tables, the relationship table
    keeps one row per ordered pair, and every relationship row and every
    post keeps referring to stored accounts. *)
Theorem serve_keeps_integrity
    (requests : list (option Z * Request)) (w : World) :
  consistent (db w) -> references_resolve (db w) ->
  let w' :=
    serve E generate_password_hash check_password_hash valid_email w requests
  in
  consistent (db w') /\ references_resolve (db w').
Proof.
  revert w; induction requests as [|[session request] rest IH];
    intros w Hc Hr; [split; assumption|].
  simpl serve; apply IH.
  - eapply transition_consistent; [|exact Hc].
    apply (handle_step (mkWorld (db w) session (flashes w)) request).
  - eapply transition_references; [|exact Hr].
    apply (handle_step (mkWorld (db w) session (flashes w)) request).
Qed.

(** X17. Every post stored through the application has a content that
    is not empty and carries no leading or trailing white space, after
    any run of requests. *)
Theorem serve_keeps_contents_stripped
    (requests : list (option Z * Request)) (w : World) :
  contents_stripped (db w) ->
  contents_stripped
    (db (serve E generate_password_hash check_password_hash valid_email
           w requests)).
Proof.
  revert w; induction requests as [|[session request] rest IH];
    intros w Hc; [exact Hc|].
  simpl serve; apply IH.
  eapply transition_contents; [|exact Hc].
  apply (handle_step (mkWorld (db w) session (flashes w)) request).
Qed.

(** X18. No request deletes or alters an account or a post, and none
    creates an administrator: after any run the two tables are the old
    ones with rows appended, and the administrators are those there
    were. *)
Theorem serve_appends_only
    (requests : list (option Z * Request)) (w : World) :
  let w' :=
    serve E generate_password_hash check_password_hash valid_email w requests
  in
  (exists new, users (db w') = users (db w) ++ new)
  /\ (exists new, posts (db w') = posts (db w) ++ new)
  /\ filter User.is_admin (users (db w'))
     = filter User.is_admin (users (db w)).
Proof.
  revert w; induction requests as [|[session request] rest IH]; intros w.
  - cbv zeta; simpl; repeat split; try (exists []; rewrite app_nil_r; reflexivity).
  - cbv zeta; simpl serve.
    destruct (transition_grows _ _
                (handle_step (mkWorld (db w) session (flashes w)) request))
      as ((nu & Hu) & (np & Hp) & Ha).
    destruct (IH (handle E generate_password_hash check_password_hash
                    valid_email (mkWorld (db w) session (flashes w)) request))
      as ((nu' & Hu') & (np' & Hp') & Ha').
    cbn [db] in Hu, Hp, Ha.
    split; [exists (nu ++ nu'); rewrite Hu', Hu, app_assoc; reflexivity|].
    split; [exists (np ++ np'); rewrite Hp', Hp, app_assoc; reflexivity|].
    rewrite Ha', Ha; reflexivity.
Qed.

End Requests.

(** ** Start-up, anonymous visitors and wildcards *)

Section Edge.

Variable E : QueryEngine.
Hypothesis HE : returns_selected_rows E.
Variable generate_password_hash : str -> str.

(** X19. The start-up block never fails and is idempotent: it leaves a
    store in which the username [testuser] or the email
    [test@example.com] is held, running it again changes nothing, and
    on a store where both were free it has appended the administrator
    [testuser]. *)
Theorem main_idempotent (now now' : Z) (d : Database) :
  exists d1,
    main generate_password_hash now d = Ok d1
    /\ main generate_password_hash now' d1 = Ok d1
    /\ (exists u, In u (users d1)
                  /\ (User.username u = str_of_string "testuser"
                      \/ User.email u = str_of_string "test@example.com"))
    /\ (available d (str_of_string "testuser")
          (str_of_string "test@example.com") ->
        users d1
        = users d ++
          [User.mk (next_id (map User.id (users d)))
             (str_of_string "testuser") (str_of_string "test@example.com")
             (generate_password_hash (str_of_string "password")) now true]).
Proof.
  unfold main, initialize, create_user, User_create.
  destruct (existsb _ (users d)) eqn:Hex.
  - exists d; rewrite Hex.
    split; [reflexivity | split; [reflexivity | split]].
    + apply existsb_exists in Hex; destruct Hex as (u & Hin & Hu).
      exists u; split; [exact Hin|].
      apply orb_true_iff in Hu; destruct Hu as [Hu | Hu];
        apply str_eqb_eq in Hu; auto.
    + intros Hav; apply (taken_existsb generate_password_hash) in Hav.
      congruence.
  - eexists; split; [reflexivity|]; cbn [users].
    rewrite existsb_app; cbn [existsb User.username User.email].
    rewrite str_eqb_refl; cbn [orb]; rewrite orb_true_r.
    split; [reflexivity | split; [|reflexivity]].
    eexists; split; [apply in_or_app; right; left; reflexivity|].
    left; reflexivity.
Qed.

Lemma load_user_none (w : World) :
  (forall u, In u (users (db w)) -> session_user_id w <> Some (User.id u)) ->
  load_user E w = None.
Proof.
  intros Hnone; unfold load_user, User_select.
  destruct (session_user_id w) as [userid|]; [|reflexivity].
  rewrite filter_none, (engine_nil E HE); [reflexivity|].
  intros u Hin; apply Z.eqb_neq; intros Hid.
  apply (Hnone u Hin); congruence.
Qed.

(** X20. The stream pages need an account: for a visitor whose session
    holds no stored account, [/stream] and [/stream/<username>] end in
    an [AttributeError] that no handler catches, for every username,
    and change nothing. *)
Theorem stream_needs_account (w : World) (username : option str) :
  (forall u, In u (users (db w)) -> session_user_id w <> Some (User.id u)) ->
  stream E w username = (Unhandled AttributeError, w).
Proof.
  intros Hnone; unfold stream; rewrite (load_user_none w Hnone); reflexivity.
Qed.

(** X21. The wildcards of LIKE reach the lookup: the request
    [/follow/%] of a logged-in account is never "not found", it follows
    the account the select returns first. *)
Theorem percent_follows_someone (w : World) (a : User.t) :
  load_user E w = Some a ->
  exists b,
    get_by_username E [percent] (db w) = Ok b
    /\ In b (users (db w))
    /\ fst (follow E w [percent])
       = Redirect "stream" (Some (User.username b))
    /\ follow_edge (db (snd (follow E w [percent]))) (User.id a) (User.id b).
Proof.
  intros Ha.
  destruct (load_user_In E HE w a Ha) as [Hin _].
  destruct (get_by_username_found E HE [percent] (db w) a Hin
              (like_percent_all _)) as [b Hb].
  exists b; split; [exact Hb|].
  split; [apply (get_by_username_In E HE _ _ _ Hb)|].
  split; [|apply follow_establishes_edge; assumption].
  unfold follow; rewrite Ha, Hb.
  destruct (Relationship_create _ _ _) as [d'|[]] eqn:Hc; try reflexivity;
    unfold Relationship_create in Hc;
    destruct (existsb _ (relationships (db w))); discriminate Hc.
Qed.

End Edge.

(** ** The further properties at work on the sample data *)

Lemma sample_db_consistent : consistent sample_db.
Proof.
  unfold consistent, edges_unique; simpl.
  repeat split; nodup_by_computation.
Qed.

Lemma toy_check_accepts (p : str) : toy_check (toy_hash p) p = true.
Proof. apply str_eqb_refl. Qed.

Lemma followers_following_converse_witness :
  (In alice (followers rowid_order bob sample_db)
   <-> In bob (following rowid_order alice sample_db))
  /\ (In alice (followers rowid_order bob sample_db)
      <-> follow_edge sample_db (User.id alice) (User.id bob)).
Proof.
  apply (followers_following_converse rowid_order rowid_order_returns
           sample_db alice bob); simpl; auto.
Defined.

Lemma public_stream_of_owner_witness :
  exists s full,
    stream rowid_order sample_world (Some (str_of_string "bob"))
    = (RenderStream "user_stream.html" s (Some bob), sample_world)
    /\ Permutation
         (filter (fun p => Post.user p =? User.id bob)
            (posts (db sample_world))) full
    /\ s = firstn 100 full
    /\ (forall p, In p s ->
                  In p (posts (db sample_world))
                  /\ Post.user p = User.id bob)
    /\ ((List.length
           (filter (fun p => (Post.user p =? User.id bob)%Z)
              (posts (db sample_world)))
         <= 100)%nat ->
        forall p, In p (posts (db sample_world)) ->
                  Post.user p = User.id bob -> In p s)
    /\ List.length s
       = Nat.min 100
           (List.length
              (filter (fun p => Post.user p =? User.id bob)
                 (posts (db sample_world)))).
Proof.
  apply (public_stream_of_owner rowid_order rowid_order_returns sample_world
           alice bob (str_of_string "bob")).
  - reflexivity.
  - discriminate.
  - discriminate.
  - reflexivity.
Defined.


(** Post 2 is served, post 7 is not found. *)
Example view_post_2_and_7 :
  fst (view_post rowid_order sample_world 2)
  = RenderStream "stream.html" [Post.mk 2 21 2 (str_of_string "there")] None
  /\ fst (view_post rowid_order sample_world 7) = Abort 404.
Proof. split; reflexivity. Qed.

Lemma post_then_view_post_witness :
  let form := mkPostForm true (str_of_string "  hello  ") in
  let w' := snd (post rowid_order 40 sample_world (Some form)) in
  let id := next_id (map Post.id (posts (db sample_world))) in
  view_post rowid_order w' id
  = (RenderStream "stream.html"
       [Post.mk id 40 (User.id alice) (strip (post_content form))] None,
     w').
Proof.
  apply (post_then_view_post rowid_order rowid_order_returns 40 sample_world
           alice (mkPostForm true (str_of_string "  hello  "))).
  - reflexivity.
  - reflexivity.
  - discriminate.
Defined.

Lemma login_then_logout_witness :
  let w := mkWorld sample_db None [] in
  let form :=
    mkLoginForm true (str_of_string "bob@example.com") (str_of_string "bob")
  in
  let check := fun h p => str_eqb h (str_of_string "hash-of-" ++ p) in
  let w1 := snd (login rowid_order check truthy w (Some form)) in
  let w2 := snd (logout rowid_order w1) in
  fst (login rowid_order check truthy w (Some form)) = Redirect "index" None
  /\ load_user rowid_order w1 = Some bob
  /\ fst (logout rowid_order w1) = Redirect "index" None
  /\ load_user rowid_order w2 = None
  /\ db w1 = db w /\ db w2 = db w.
Proof.
  apply (login_then_logout rowid_order rowid_order_returns
           (fun h p => str_eqb h (str_of_string "hash-of-" ++ p)) truthy
           (mkWorld sample_db None [])
           (mkLoginForm true (str_of_string "bob@example.com")
              (str_of_string "bob"))
           bob).
  - simpl; nodup_by_computation.
  - reflexivity.
  - reflexivity.
  - reflexivity.
Defined.

Lemma register_never_raises_witness :
  (RegisterForm_errors rowid_order truthy (db sample_world) dave_form <> []
   /\ register rowid_order toy_hash truthy 13 sample_world (Some dave_form)
      = (RenderRegister
           (RegisterForm_errors rowid_order truthy (db sample_world) dave_form),
         sample_world))
  \/ (RegisterForm_errors rowid_order truthy (db sample_world) dave_form = []
      /\ register rowid_order toy_hash truthy 13 sample_world (Some dave_form)
         = (Answer (Redirect "index" None),
            mkWorld
              (mkDatabase
                 (users (db sample_world) ++
                  [User.mk (next_id (map User.id (users (db sample_world))))
                     (reg_username dave_form) (reg_email dave_form)
                     (toy_hash (reg_password dave_form)) 13 false])
                 (relationships (db sample_world)) (posts (db sample_world)))
              (session_user_id sample_world)
              (flashes sample_world ++
               [(str_of_string "You registered successfully.",
                 "success"%string)]))).
Proof.
  apply (register_never_raises rowid_order rowid_order_returns toy_hash truthy
           13 sample_world dave_form).
Defined.

Lemma register_refuses_taken_witness :
  exists errors,
    errors <> []
    /\ register rowid_order toy_hash truthy 13 sample_world
         (Some (mkRegisterForm true (str_of_string "alice")
                  (str_of_string "new@example.com") (str_of_string "pw")
                  (str_of_string "pw")))
       = (RenderRegister errors, sample_world).
Proof.
  apply (register_refuses_taken rowid_order rowid_order_returns toy_hash truthy
           13 sample_world
           (mkRegisterForm true (str_of_string "alice")
              (str_of_string "new@example.com") (str_of_string "pw")
              (str_of_string "pw"))
           alice).
  - simpl; auto.
  - left; reflexivity.
Defined.

(** The error is the message of [name_exists]. *)
Example register_alice_again :
  fst (register rowid_order toy_hash truthy 13 sample_world
         (Some (mkRegisterForm true (str_of_string "alice")
                  (str_of_string "new@example.com") (str_of_string "pw")
                  (str_of_string "pw"))))
  = RenderRegister [Message "username" "User with that name already exists."].
Proof. reflexivity. Qed.

Lemma register_then_login_witness :
  let w1 :=
    snd (register rowid_order toy_hash truthy 13 sample_world (Some dave_form))
  in
  let credentials :=
    mkLoginForm true (reg_email dave_form) (reg_password dave_form) in
  let r := login rowid_order toy_check truthy w1 (Some credentials) in
  fst r = Redirect "index" None
  /\ session_user_id (snd r)
     = Some (next_id (map User.id (users (db sample_world))))
  /\ db (snd r) = db w1.
Proof.
  apply (register_then_login rowid_order rowid_order_returns toy_hash toy_check
           truthy toy_check_accepts 13 sample_world dave_form).
  reflexivity.
Defined.

Lemma alice_does_not_follow_carol :
  ~ follow_edge (db sample_world) (User.id alice) (User.id carol).
Proof.
  intros (r & Hin & Hfrom & Hto); simpl in Hin.
  destruct Hin as [<- | []]; simpl in Hto; discriminate Hto.
Qed.

Lemma alice_does_not_follow_alice :
  ~ follow_edge (db sample_world) (User.id alice) (User.id alice).
Proof.
  intros (r & Hin & Hfrom & Hto); simpl in Hin.
  destruct Hin as [<- | []]; simpl in Hto; discriminate Hto.
Qed.

Lemma follow_then_unfollow_witness :
  let w1 := snd (follow rowid_order sample_world (str_of_string "carol")) in
  fst (unfollow rowid_order w1 (str_of_string "carol"))
  = Redirect "stream" (Some (User.username carol))
  /\ db (snd (unfollow rowid_order w1 (str_of_string "carol")))
     = db sample_world.
Proof.
  apply (follow_then_unfollow rowid_order sample_world alice carol
           (str_of_string "carol")).
  - reflexivity.
  - reflexivity.
  - exact alice_does_not_follow_carol.
Defined.

Lemma self_follow_harmless_witness :
  let w1 := snd (follow rowid_order sample_world (str_of_string "alice")) in
  fst (follow rowid_order sample_world (str_of_string "alice"))
  = Redirect "stream" (Some (User.username alice))
  /\ follow_edge (db w1) (User.id alice) (User.id alice)
  /\ Permutation (get_stream rowid_order alice (db sample_world))
       (get_stream rowid_order alice (db w1)).
Proof.
  apply (self_follow_harmless rowid_order rowid_order_returns sample_world
           alice (str_of_string "alice")).
  - reflexivity.
  - reflexivity.
  - exact alice_does_not_follow_alice.
Defined.

Lemma unfollow_removes_the_edge_witness :
  let w1 := snd (unfollow rowid_order sample_world (str_of_string "bob")) in
  fst (unfollow rowid_order sample_world (str_of_string "bob"))
  = Redirect "stream" (Some (User.username bob))
  /\ ~ follow_edge (db w1) (User.id alice) (User.id bob)
  /\ (forall x y, (x, y) <> (User.id alice, User.id bob) ->
                  (follow_edge (db w1) x y
                   <-> follow_edge (db sample_world) x y))
  /\ users (db w1) = users (db sample_world)
  /\ posts (db w1) = posts (db sample_world)
  /\ consistent (db w1).
Proof.
  apply (unfollow_removes_the_edge rowid_order sample_world alice bob
           (str_of_string "bob")).
  - reflexivity.
  - reflexivity.
  - exact sample_db_consistent.
  - exact sample_edge.
Defined.

Lemma serve_transitions_witness :
  transitions (db (mkWorld empty_db None []))
    (db (serve rowid_order toy_hash toy_check truthy
           (mkWorld empty_db None []) sample_run)).
Proof.
  apply (serve_transitions rowid_order rowid_order_returns toy_hash toy_check
           truthy sample_run (mkWorld empty_db None [])).
Defined.

(** What the sample run leaves in the store. *)
Example sample_run_result :
  db (serve rowid_order toy_hash toy_check truthy
        (mkWorld empty_db None []) sample_run)
  = mkDatabase
      [User.mk 1 (str_of_string "dave") (str_of_string "dave@example.com")
         (toy_hash (str_of_string "pw")) 5 false]
      [Relationship.mk 1 1 1]
      [Post.mk 1 6 1 (str_of_string "hello")].
Proof. vm_compute; reflexivity. Qed.

Lemma empty_db_references : references_resolve empty_db.
Proof. split; intros x []. Qed.

Lemma serve_keeps_integrity_witness :
  let w' :=
    serve rowid_order toy_hash toy_check truthy (mkWorld empty_db None [])
      sample_run
  in
  consistent (db w') /\ references_resolve (db w').
Proof.
  apply (serve_keeps_integrity rowid_order rowid_order_returns toy_hash toy_check
           truthy sample_run (mkWorld empty_db None [])).
  - exact empty_db_consistent.
  - exact empty_db_references.
Defined.

Lemma serve_keeps_contents_stripped_witness :
  contents_stripped
    (db (serve rowid_order toy_hash toy_check truthy
           (mkWorld empty_db None []) sample_run)).
Proof.
  apply (serve_keeps_contents_stripped rowid_order rowid_order_returns toy_hash
           toy_check truthy sample_run (mkWorld empty_db None [])).
  intros p [].
Defined.

Lemma serve_appends_only_witness :
  let w' :=
    serve rowid_order toy_hash toy_check truthy sample_world sample_run in
  (exists new, users (db w') = users (db sample_world) ++ new)
  /\ (exists new, posts (db w') = posts (db sample_world) ++ new)
  /\ filter User.is_admin (users (db w'))
     = filter User.is_admin (users (db sample_world)).
Proof.
  apply (serve_appends_only rowid_order rowid_order_returns toy_hash toy_check
           truthy sample_run sample_world).
Defined.

Lemma stream_needs_account_witness :
  stream rowid_order (mkWorld sample_db (Some 9) [])
    (Some (str_of_string "bob"))
  = (Unhandled AttributeError, mkWorld sample_db (Some 9) []).
Proof.
  apply (stream_needs_account rowid_order rowid_order_returns
           (mkWorld sample_db (Some 9) []) (Some (str_of_string "bob"))).
  intros u Hin; simpl in Hin.
  destruct Hin as [<- | [<- | [<- | []]]]; discriminate.
Defined.

Lemma percent_follows_someone_witness :
  exists b,
    get_by_username rowid_order [percent] (db sample_world) = Ok b
    /\ In b (users (db sample_world))
    /\ fst (follow rowid_order sample_world [percent])
       = Redirect "stream" (Some (User.username b))
    /\ follow_edge (db (snd (follow rowid_order sample_world [percent])))
         (User.id alice) (User.id b).
Proof.
  apply (percent_follows_someone rowid_order rowid_order_returns sample_world
           alice).
  reflexivity.
Defined.

(** [/follow/%] makes [alice] follow the account stored first,
    herself. *)
Example follow_percent :
  fst (follow rowid_order sample_world [percent])
  = Redirect "stream" (Some (str_of_string "alice")).
Proof. reflexivity. Qed.

(** Start-up on an empty store creates the administrator once. *)
Example main_twice :
  main toy_hash 1 empty_db
  = Ok (mkDatabase
          [User.mk 1 (str_of_string "testuser")
             (str_of_string "test@example.com")
             (toy_hash (str_of_string "password")) 1 true] [] [])
  /\ match main toy_hash 1 empty_db with
     | Ok d1 => main toy_hash 2 d1 = Ok d1
     | Raise _ => False
     end.
Proof. split; reflexivity. Qed.

(** ** What the lookup and the post form accept *)

Section Accepting.

Variable E : QueryEngine.
Hypothesis HE : returns_selected_rows E.


(** X2. A logged-in account's submission to [/new_post] is stored
    exactly when its content holds a character that is not white space:
    then the answer is the redirect and the post table has gained the
    stripped message; any other content gets the form back and changes
    nothing. *)
Theorem post_accepts_iff
    (now : Z) (w : World) (owner : User.t) (form : PostForm) :
  load_user E w = Some owner ->
  post_csrf_ok form = true ->
  (fst (post E now w (Some form)) = Redirect "index" None
   <-> exists c, In c (post_content form) /\ isspace c = false)
  /\ ((exists c, In c (post_content form) /\ isspace c = false) ->
      db (snd (post E now w (Some form)))
      = mkDatabase (users (db w)) (relationships (db w))
          (posts (db w) ++
           [Post.mk (next_id (map Post.id (posts (db w)))) now
              (User.id owner) (strip (post_content form))]))
  /\ ((forall c, In c (post_content form) -> isspace c = true) ->
      post E now w (Some form)
      = (RenderForm "post.html" [Required "content"], w)).
Proof.
  intros Howner Hcsrf; unfold post, PostForm_errors.
  rewrite Howner, Hcsrf; cbn [app].
  destruct (DataRequired (post_content form)) eqn:Hreq; cbn [validate fst snd].
  - split; [split; [intros _; apply DataRequired_iff; exact Hreq | reflexivity]|].
    split; [intros _; reflexivity|].
    intros Hblank; apply DataRequired_iff in Hreq.
    destruct Hreq as (c & Hin & Hc); rewrite (Hblank c Hin) in Hc; discriminate.
  - split; [split; [discriminate|]|split; [|reflexivity]];
      intros Hex; apply DataRequired_iff in Hex; congruence.
Qed.

End Accepting.


Lemma post_accepts_iff_witness :
  let form := mkPostForm true (str_of_string " hi ") in
  (fst (post rowid_order 40 sample_world (Some form)) = Redirect "index" None
   <-> exists c, In c (post_content form) /\ isspace c = false)
  /\ ((exists c, In c (post_content form) /\ isspace c = false) ->
      db (snd (post rowid_order 40 sample_world (Some form)))
      = mkDatabase (users (db sample_world)) (relationships (db sample_world))
          (posts (db sample_world) ++
           [Post.mk (next_id (map Post.id (posts (db sample_world)))) 40
              (User.id alice) (strip (post_content form))]))
  /\ ((forall c, In c (post_content form) -> isspace c = true) ->
      post rowid_order 40 sample_world (Some form)
      = (RenderForm "post.html" [Required "content"], sample_world)).
Proof.
  apply (post_accepts_iff rowid_order 40 sample_world alice
           (mkPostForm true (str_of_string " hi "))).
  - reflexivity.
  - reflexivity.
Defined.
